(** * Momentum-conservation loss (model/physics_constraints.py)

    A shallow embedding of the four entry points of the module
    ([compute_linear_momentum], [compute_linear_momentum_batched],
    [momentum_conservation_loss] and the [PhysicsInformedLoss] wrapper)
    together with the fragment of the tensor library they call.

    Numbers.  Python floats and tensor entries are modelled by exact
    rationals ([Q]); results are compared with [Qeq].  The model is the
    computation in exact arithmetic on finite entries: rounding, underflow
    and overflow are left out, so an entry is never inf or nan and a sum
    that would exceed the float range stays a number.  In exact arithmetic
    the only place where the code produces a non-finite value is the mean of
    an empty tensor (0/0), which the tensor library returns as [nan]; this is
    kept in the model as the value [NaN] of [fval].

    Tensors.  A tensor is a shape and its entries in row-major order, as a
    dense contiguous array.  [view], broadcasting and reduction along an axis
    follow the library's rules, including the inferred [-1] size of [view]
    and the errors raised on inconsistent shapes. *)

From Stdlib Require Import QArith Qminmax Lqa ZArith List Lia.
From stdpp Require Import gmap strings list.
Import ListNotations.

(** ** Errors *)

(** The tensor library raises on inconsistent shapes ([ShapeMismatch]: a
    failed [view] or a failed broadcast) and on a reduction axis that the
    tensor does not have ([IndexError]).  The module catches nothing. *)
Inductive ErrorKind : Type :=
  | ShapeMismatch
  | IndexError.

Inductive result (A : Type) : Type :=
  | Ok (a : A)
  | Err (e : ErrorKind).
Arguments Ok {A} a.
Arguments Err {A} e.

Definition rbind {A B : Type} (r : result A) (k : A -> result B) : result B :=
  match r with
  | Ok a => k a
  | Err e => Err e
  end.

Notation "'let?' x ':=' r 'in' k" := (rbind r (fun x => k))
  (at level 10, x name, r at level 100, k at level 200).

(** ** Scalars that may be nan *)

Inductive fval : Type :=
  | Fin (q : Q)
  | NaN.

Definition feq (x y : fval) : Prop :=
  match x, y with
  | Fin a, Fin b => (a == b)%Q
  | NaN, NaN => True
  | _, _ => False
  end.

(** Comparison as the language evaluates it: false as soon as one side is nan. *)
Definition fle (x y : fval) : Prop :=
  match x, y with
  | Fin a, Fin b => (a <= b)%Q
  | _, _ => False
  end.

Definition fadd (x y : fval) : fval :=
  match x, y with
  | Fin a, Fin b => Fin (a + b)
  | _, _ => NaN
  end.

Definition fmul (x y : fval) : fval :=
  match x, y with
  | Fin a, Fin b => Fin (a * b)
  | _, _ => NaN
  end.

(** [torch.clamp(x, max=c)] on a scalar: nan stays nan. *)
Definition fclamp_max (x : fval) (c : Q) : fval :=
  match x with
  | Fin a => Fin (Qmin a c)
  | NaN => NaN
  end.

(** ** Tensors *)

(** The entries are finite numbers, held exactly. *)
Record Tensor : Type := mkTensor { shape : list nat; data : list Q }.

Definition numel_of (s : list nat) : nat := fold_right Nat.mul 1 s.

Definition numel (t : Tensor) : nat := numel_of (shape t).

Definition dim (t : Tensor) : nat := length (shape t).

(** Dense storage: as many entries as the shape announces. *)
Definition wf (t : Tensor) : Prop := length (data t) = numel t.

(** [chunks k sz d]: the first [k] consecutive blocks of [sz] entries. *)
Fixpoint chunks (k sz : nat) (d : list Q) : list (list Q) :=
  match k with
  | O => []
  | S k' => take sz d :: chunks k' sz (drop sz d)
  end.

(** *** view *)

Definition is_infer (z : Z) : bool := (z =? -1)%Z.

(** Size inference of [view]: at most one [-1], no other negative size, and
    the sizes must account for exactly the entries of the tensor. *)
Definition infer_size (sizes : list Z) (n : nat) : result (list nat) :=
  if existsb (fun z => (z <? -1)%Z) sizes then Err ShapeMismatch
  else
    let known := List.filter (fun z => negb (is_infer z)) sizes in
    let newsize := Z.to_nat (fold_right Z.mul 1%Z known) in
    match length (List.filter is_infer sizes) with
    | 0 =>
        if newsize =? n then Ok (map Z.to_nat sizes) else Err ShapeMismatch
    | 1 =>
        if (0 <? newsize) && (n mod newsize =? 0)
        then Ok (map (fun z => if is_infer z then n / newsize else Z.to_nat z) sizes)
        else Err ShapeMismatch
    | _ => Err ShapeMismatch
    end.

Definition view (t : Tensor) (sizes : list Z) : result Tensor :=
  let? s := infer_size sizes (numel t) in
  Ok (mkTensor s (data t)).

(** *** unsqueeze(-1) *)

Definition unsqueeze_last (t : Tensor) : Tensor :=
  mkTensor (shape t ++ [1]) (data t).

(** *** Broadcasting *)

Definition pad_shape (r : nat) (s : list nat) : list nat :=
  replicate (r - length s) 1 ++ s.

Definition bdim (a c : nat) : option nat :=
  if a =? c then Some a
  else if a =? 1 then Some c
  else if c =? 1 then Some a
  else None.

Fixpoint bshape (s1 s2 : list nat) : option (list nat) :=
  match s1, s2 with
  | [], [] => Some []
  | a :: s1', c :: s2' =>
      match bdim a c, bshape s1' s2' with
      | Some d, Some s => Some (d :: s)
      | _, _ => None
      end
  | _, _ => None
  end.

Definition broadcast_shapes (s1 s2 : list nat) : option (list nat) :=
  let r := Nat.max (length s1) (length s2) in
  bshape (pad_shape r s1) (pad_shape r s2).

(** [expand s t d]: the entries [d] of a tensor of shape [s] laid out in the
    shape [t] of the same rank, repeating along the axes where [s] has size 1
    and [t] does not. *)
Fixpoint expand (s t : list nat) (d : list Q) : list Q :=
  match s, t with
  | a :: s', c :: t' =>
      let blocks := map (expand s' t') (chunks a (numel_of s') d) in
      if a =? c then concat blocks else concat (replicate c (concat blocks))
  | _, _ => d
  end.

Definition binop (f : Q -> Q -> Q) (t1 t2 : Tensor) : result Tensor :=
  let r := Nat.max (dim t1) (dim t2) in
  match broadcast_shapes (shape t1) (shape t2) with
  | None => Err ShapeMismatch
  | Some s =>
      Ok (mkTensor s (zip_with f (expand (pad_shape r (shape t1)) s (data t1))
                                 (expand (pad_shape r (shape t2)) s (data t2))))
  end.

Definition tmul : Tensor -> Tensor -> result Tensor := binop Qmult.
Definition tsub : Tensor -> Tensor -> result Tensor := binop Qminus.
Definition tdiv : Tensor -> Tensor -> result Tensor := binop Qdiv.

(** *** Elementwise operations *)

Definition tmap (f : Q -> Q) (t : Tensor) : Tensor :=
  mkTensor (shape t) (map f (data t)).

Definition pow2 : Tensor -> Tensor := tmap (fun x => (x ^ 2)%Q).

Definition clamp_min (t : Tensor) (lo : Q) : Tensor :=
  tmap (fun x => Qmax x lo) t.

(** *** Reductions *)

Definition vadd (u v : list Q) : list Q := zip_with Qplus u v.

(** Sum along axis [k] of row-major data of shape [s]. *)
Fixpoint sum_axis (k : nat) (s : list nat) (d : list Q) {struct s} : list Q :=
  match s with
  | [] => d
  | a :: s' =>
      match k with
      | O => fold_right vadd (replicate (numel_of s') 0%Q)
                        (chunks a (numel_of s') d)
      | S k' => concat (map (sum_axis k' s') (chunks a (numel_of s') d))
      end
  end.

(** Axis numbers may be negative (counted from the end); a 0-axis tensor
    accepts the axes [0] and [-1]. *)
Definition norm_dim (r : nat) (d : Z) : result nat :=
  let r' := Z.of_nat (Nat.max r 1) in
  if ((- r' <=? d) && (d <? r'))%Z then Ok (Z.to_nat (d mod r')) else Err IndexError.

Definition sum_dim (t : Tensor) (d : Z) : result Tensor :=
  let? k := norm_dim (dim t) d in
  Ok (mkTensor (delete k (shape t)) (sum_axis k (shape t) (data t))).

Definition qsum (d : list Q) : Q := fold_right Qplus 0%Q d.

(** [t.mean()]: a scalar; nan when the tensor has no entry. *)
Definition mean (t : Tensor) : fval :=
  if numel t =? 0 then NaN
  else Fin (qsum (data t) / inject_Z (Z.of_nat (numel t))).

(** ** The module *)

Definition eps : Q := 1 # 1000000.

(** [compute_linear_momentum(vel, masses=None)] *)
Definition compute_linear_momentum (vel : Tensor) (masses : option Tensor)
  : result Tensor :=
  if dim vel =? 3 then
    match masses with
    | Some m =>
        let? p := tmul vel (unsqueeze_last m) in
        sum_dim p 1
    | None => sum_dim vel 1
    end
  else
    match masses with
    | Some m =>
        let? p := tmul vel (unsqueeze_last m) in
        sum_dim p 0
    | None => sum_dim vel 0
    end.

(** [compute_linear_momentum_batched(vel, n_nodes, batch_size, masses=None)] *)
Definition compute_linear_momentum_batched
  (vel : Tensor) (n_nodes batch_size : Z) (masses : option Tensor)
  : result Tensor :=
  let? vel_batched := view vel [batch_size; n_nodes; 3%Z] in
  compute_linear_momentum vel_batched masses.

(** [momentum_conservation_loss(vel_init, vel_pred, n_nodes, batch_size, masses=None)] *)
Definition momentum_conservation_loss
  (vel_init vel_pred : Tensor) (n_nodes batch_size : Z) (masses : option Tensor)
  : result fval :=
  let? P_init := compute_linear_momentum_batched vel_init n_nodes batch_size masses in
  let? P_pred := compute_linear_momentum_batched vel_pred n_nodes batch_size masses in
  let? diff := tsub P_pred P_init in
  let? loss := sum_dim (pow2 diff) (-1) in
  let? nrm := sum_dim (pow2 P_init) (-1) in
  let P_init_norm := clamp_min nrm eps in
  let? loss := tdiv loss P_init_norm in
  Ok (mean loss).

(** The per-sample loss of [momentum_conservation_loss]: the tensor [loss]
    on which the function ends with [loss.mean()]. *)
Definition per_sample_loss
  (vel_init vel_pred : Tensor) (n_nodes batch_size : Z) (masses : option Tensor)
  : result Tensor :=
  let? P_init := compute_linear_momentum_batched vel_init n_nodes batch_size masses in
  let? P_pred := compute_linear_momentum_batched vel_pred n_nodes batch_size masses in
  let? diff := tsub P_pred P_init in
  let? loss := sum_dim (pow2 diff) (-1) in
  let? nrm := sum_dim (pow2 P_init) (-1) in
  let P_init_norm := clamp_min nrm eps in
  tdiv loss P_init_norm.

(** *** PhysicsInformedLoss *)

Record PhysicsInformedLoss : Type := mkPhysicsInformedLoss {
  lambda_momentum : Q;
  warmup_epochs : Q;
  max_physics_loss : Q;
  current_epoch : Q
}.

(** [__init__]: the epoch counter starts at 0. *)
Definition init (lambda_momentum warmup_epochs max_physics_loss : Q)
  : PhysicsInformedLoss :=
  mkPhysicsInformedLoss lambda_momentum warmup_epochs max_physics_loss 0.

Definition set_epoch (self : PhysicsInformedLoss) (epoch : Q)
  : PhysicsInformedLoss :=
  mkPhysicsInformedLoss (lambda_momentum self) (warmup_epochs self)
                        (max_physics_loss self) epoch.

Definition Qleb (x y : Q) : bool := Qle_bool x y.
Definition Qltb (x y : Q) : bool := negb (Qle_bool y x).

Definition get_warmup_factor (self : PhysicsInformedLoss) : Q :=
  if Qleb (warmup_epochs self) 0 then 1%Q
  else Qmin 1 (current_epoch self / warmup_epochs self).

(** The accumulator [total_physics_loss] is a plain float until a tensor is
    added to it. *)
Inductive total_t : Type :=
  | PyFloat (x : Q)
  | TensorScalar (x : fval).

(** The number stored in the report,
    [v.item() if torch.is_tensor(v) else v]. *)
Definition as_number (v : total_t) : fval :=
  match v with
  | PyFloat x => Fin x
  | TensorScalar x => x
  end.

(** The clamp ceiling [max_physics_loss / max(lambda_momentum, 1e-6)]. *)
Definition ceiling (self : PhysicsInformedLoss) : Q :=
  (max_physics_loss self / Qmax (lambda_momentum self) eps)%Q.

(** [compute_physics_losses(vel_init, vel_pred, n_nodes, batch_size, masses=None)] *)
Definition compute_physics_losses
  (self : PhysicsInformedLoss) (vel_init vel_pred : Tensor)
  (n_nodes batch_size : Z) (masses : option Tensor)
  : result (total_t * gmap string fval) :=
  let losses : gmap string fval := ∅ in
  let total_physics_loss := PyFloat 0 in
  let warmup_factor := get_warmup_factor self in
  let? acc :=
    if Qltb 0 (lambda_momentum self) then
      let? momentum_loss :=
        momentum_conservation_loss vel_init vel_pred n_nodes batch_size masses in
      let momentum_loss_clamped := fclamp_max momentum_loss (ceiling self) in
      let losses := <["momentum" := momentum_loss]> losses in
      let losses := <["momentum_clamped" := momentum_loss_clamped]> losses in
      Ok (TensorScalar
            (fadd (as_number total_physics_loss)
                  (fmul (fmul (Fin (lambda_momentum self)) momentum_loss_clamped)
                        (Fin warmup_factor))),
          losses)
    else Ok (total_physics_loss, losses) in
  let total_physics_loss := fst acc in
  let losses := snd acc in
  let losses := <["total_physics" := as_number total_physics_loss]> losses in
  let losses := <["warmup_factor" := Fin warmup_factor]> losses in
  Ok (total_physics_loss, losses).


(** ** The loss in the words of the specification

    The flat velocity array is read as [b] samples of [n] particles with
    three components each; the momentum of a sample is the sum of its
    particles' velocities, each weighted by its mass when masses are given;
    the loss of a sample is the squared deviation of its momentum over the
    three components, divided by [max(sum(P_init^2), 1e-6)]; the result is
    the mean over the batch. *)

Definition samples (b n : nat) (vel : Tensor) : list (list (list Q)) :=
  map (chunks n 3) (chunks b (n * 3) (data vel)).

(** The masses of each sample, one per particle: the rows of a (b, n)
    array, or the same (n) array for every sample. *)
Definition mass_blocks (b n : nat) (m : Tensor) : list (list Q) :=
  if dim m =? 1 then replicate b (data m) else chunks b n (data m).

Definition sample_masses (b n : nat) (masses : option Tensor)
  : list (option (list Q)) :=
  match masses with
  | None => replicate b None
  | Some m => map Some (mass_blocks b n m)
  end.

Definition weigh (v : list Q) (m : Q) : list Q := map (fun x => (x * m)%Q) v.

Definition vsum (vs : list (list Q)) : list Q :=
  fold_right vadd [0; 0; 0]%Q vs.

Definition sample_momentum (vs : list (list Q)) (ms : option (list Q))
  : list Q :=
  match ms with
  | None => vsum vs
  | Some ms => vsum (zip_with weigh vs ms)
  end.

Definition sumsq (v : list Q) : Q := qsum (map (fun x => (x ^ 2)%Q) v).

Definition sample_loss (P_init P_pred : list Q) : Q :=
  (sumsq (zip_with Qminus P_pred P_init) / Qmax (sumsq P_init) eps)%Q.

Definition average (l : list Q) : fval :=
  if length l =? 0 then NaN
  else Fin (qsum l / inject_Z (Z.of_nat (length l))).

Definition spec_momentum_loss
  (b n : nat) (vel_init vel_pred : Tensor) (masses : option Tensor) : fval :=
  let ms := sample_masses b n masses in
  let P_init := zip_with sample_momentum (samples b n vel_init) ms in
  let P_pred := zip_with sample_momentum (samples b n vel_pred) ms in
  average (zip_with sample_loss P_init P_pred).

(** Masses the grouped array accepts one per particle: none, a dense array
    of shape (b, n), or a dense array of shape (n) shared by the samples. *)
Definition masses_per_particle (b n : nat) (masses : option Tensor) : Prop :=
  match masses with
  | None => True
  | Some m => (shape m = [b; n] \/ shape m = [n]) /\ wf m
  end.

(** Masses the flat 2-axis array of [n] rows accepts: none, or a dense array
    of shape (n). *)
Definition masses_flat (n : nat) (masses : option Tensor) : Prop :=
  match masses with
  | None => True
  | Some m => shape m = [n] /\ wf m
  end.

(** Every entry of a tensor multiplied by [c]. *)
Definition scale_tensor (c : Q) (t : Tensor) : Tensor :=
  tmap (fun x => (c * x)%Q) t.

(** The per-sample momenta of a flat array. *)
Definition sample_momenta (b n : nat) (vel : Tensor) (masses : option Tensor)
  : list (list Q) :=
  zip_with sample_momentum (samples b n vel) (sample_masses b n masses).

(** The weighted, clamped and warmed value of a raw momentum loss:
    [lambda_momentum * momentum_loss_clamped * warmup_factor]. *)
Definition weighted (self : PhysicsInformedLoss) (momentum_loss : fval)
  : fval :=
  fmul (fmul (Fin (lambda_momentum self))
             (fclamp_max momentum_loss (ceiling self)))
       (Fin (get_warmup_factor self)).

(** ** Sample inputs *)

(** Two samples of three particles; the momenta are (1,0,0) and (0,2,0). *)
Definition vel_two_samples : Tensor :=
  mkTensor [6; 3] [1;0;0; 0;0;0; 0;0;0;  0;1;0; 0;1;0; 0;0;0]%Q.

(** The same with the first particle of the first sample pushed by (1,0,0). *)
Definition vel_two_samples_pushed : Tensor :=
  mkTensor [6; 3] [2;0;0; 0;0;0; 0;0;0;  0;1;0; 0;1;0; 0;0;0]%Q.

(** The same push given to the second particle of the first sample. *)
Definition vel_two_samples_pushed_second : Tensor :=
  mkTensor [6; 3] [1;0;0; 1;0;0; 0;0;0;  0;1;0; 0;1;0; 0;0;0]%Q.

(** One mass per particle for the two samples of three particles. *)
Definition masses_two_samples : Tensor :=
  mkTensor [2; 3] [1; 2; 1; 1; 3; 1]%Q.

(** A batch without any sample: no row at all. *)
Definition vel_no_rows : Tensor := mkTensor [0; 3] [].

Definition default_loss : PhysicsInformedLoss := init (1 # 10) 0 10.


(** Four particles in two samples of two, and one mass per particle given
    as a flat array of four. *)
Definition vel_four_rows : Tensor :=
  mkTensor [4; 3] [1;0;0; 0;1;0; 0;0;1; 1;1;1]%Q.

Definition masses_flat_four : Tensor := mkTensor [4] [1;1;1;1]%Q.

(** Three samples of one particle each, at rest and with the first particle
    moving, and one mass per particle given as a flat array of three. *)
Definition vel_three_at_rest : Tensor :=
  mkTensor [3; 3] [0;0;0; 0;0;0; 0;0;0]%Q.

Definition vel_three_first_moving : Tensor :=
  mkTensor [3; 3] [1;0;0; 0;0;0; 0;0;0]%Q.

Definition masses_flat_three : Tensor := mkTensor [3] [1; 2; 3]%Q.

(** The flat array [vel] read as [b] groups of [n] rows: the same entries in
    the same row-major order under the shape (b, n, 3). *)
Definition regroup (b n : nat) (vel : Tensor) : Tensor :=
  mkTensor [b; n; 3] (data vel).

(** Data that is zero everywhere. *)
Abbreviation all_zero := (Forall (fun x : Q => (x == 0)%Q)).

(** Each axis of [s] either has the size of the same axis of [t] or size 1. *)
Definition expands_to (s t : list nat) : Prop :=
  Forall2 (fun a c => a = c \/ a = 1) s t.

(** The all-ones array of shape [s]. *)
Definition ones (s : list nat) : Tensor :=
  mkTensor s (replicate (numel_of s) 1%Q).

(** What a run returned: the total and the report (empty on an error). *)
Definition total_of (r : result (total_t * gmap string fval)) : total_t :=
  match r with
  | Ok (t, _) => t
  | Err _ => PyFloat 0
  end.

Definition report_of (r : result (total_t * gmap string fval))
  : gmap string fval :=
  match r with
  | Ok (_, l) => l
  | Err _ => ∅
  end.

(** * Properties *)

(** ** Booleans of the comparisons *)

Lemma Qleb_true (x y : Q) : Qleb x y = true <-> (x <= y)%Q.
Proof. unfold Qleb. apply Qle_bool_iff. Qed.

Lemma Qltb_true (x y : Q) : Qltb x y = true <-> (x < y)%Q.
Proof.
  unfold Qltb. rewrite negb_true_iff. split.
  - intros H. apply Qnot_le_lt. intros Hle.
    apply Qle_bool_iff in Hle. congruence.
  - intros H. destruct (Qle_bool y x) eqn:E; [|reflexivity].
    apply Qle_bool_iff in E. lra.
Qed.

Lemma Qltb_false (x y : Q) : Qltb x y = false <-> (y <= x)%Q.
Proof.
  unfold Qltb. rewrite negb_false_iff. apply Qle_bool_iff.
Qed.

Lemma eps_pos : (0 < eps)%Q.
Proof. reflexivity. Qed.

(** ** Warmup *)

Section Warmup.
Variable self : PhysicsInformedLoss.

Lemma warmup_disabled :
  (warmup_epochs self <= 0)%Q -> get_warmup_factor self = 1%Q.
Proof.
  intros H. unfold get_warmup_factor.
  apply Qleb_true in H. now rewrite H.
Qed.

Lemma warmup_enabled :
  (0 < warmup_epochs self)%Q ->
  get_warmup_factor self = Qmin 1 (current_epoch self / warmup_epochs self).
Proof.
  intros H. unfold get_warmup_factor.
  destruct (Qleb (warmup_epochs self) 0) eqn:E; [|reflexivity].
  apply Qleb_true in E. lra.
Qed.
End Warmup.

Lemma Qdiv_le_compat_pos (a b w : Q) :
  (0 < w)%Q -> (a <= b)%Q -> (a / w <= b / w)%Q.
Proof.
  intros Hw Hab. unfold Qdiv.
  apply Qmult_le_compat_r; [exact Hab|].
  apply Qlt_le_weak, Qinv_lt_0_compat, Hw.
Qed.

Lemma Qdiv_ge_1 (a w : Q) : (0 < w)%Q -> (w <= a)%Q -> (1 <= a / w)%Q.
Proof.
  intros Hw Ha. apply Qle_shift_div_l; [exact Hw|]. lra.
Qed.

Lemma Qdiv_nonneg (a w : Q) : (0 < w)%Q -> (0 <= a)%Q -> (0 <= a / w)%Q.
Proof.
  intros Hw Ha. apply Qle_shift_div_l; [exact Hw|]. lra.
Qed.

Lemma Qmin_1_eq (x : Q) : (1 <= x)%Q -> Qmin 1 x = 1%Q.
Proof.
  intros H. unfold Qmin, GenericMinMax.gmin.
  destruct (1 ?= x)%Q eqn:E; try reflexivity.
  apply Qgt_alt in E. lra.
Qed.

(** C4 (as amended).  With [warmup_epochs <= 0] the factor is 1.  With
    [warmup_epochs > 0] the factor is non-decreasing in the epoch installed by
    [set_epoch], never above 1, equal to 1 from [warmup_epochs] on, and
    non-negative for the non-negative epochs. *)
Theorem warmup_factor_ramp (self : PhysicsInformedLoss) :
  ((warmup_epochs self <= 0)%Q ->
   forall e, get_warmup_factor (set_epoch self e) = 1%Q) /\
  ((0 < warmup_epochs self)%Q ->
   (forall e1 e2, (e1 <= e2)%Q ->
      (get_warmup_factor (set_epoch self e1)
       <= get_warmup_factor (set_epoch self e2))%Q) /\
   (forall e, (get_warmup_factor (set_epoch self e) <= 1)%Q) /\
   (forall e, (0 <= e)%Q -> (0 <= get_warmup_factor (set_epoch self e))%Q) /\
   (forall e, (warmup_epochs self <= e)%Q ->
      get_warmup_factor (set_epoch self e) = 1%Q)).
Proof.
  split.
  - intros H e. apply warmup_disabled. exact H.
  - intros Hw. repeat split.
    + intros e1 e2 He.
      rewrite !warmup_enabled by exact Hw. cbn [set_epoch current_epoch warmup_epochs].
      apply Q.min_le_compat_l, Qdiv_le_compat_pos; assumption.
    + intros e. rewrite warmup_enabled by exact Hw. apply Q.le_min_l.
    + intros e He. rewrite warmup_enabled by exact Hw.
      cbn [set_epoch current_epoch warmup_epochs].
      apply Q.min_glb; [lra|]. apply Qdiv_nonneg; assumption.
    + intros e He. rewrite warmup_enabled by exact Hw.
      cbn [set_epoch current_epoch warmup_epochs].
      apply Qmin_1_eq, Qdiv_ge_1; assumption.
Qed.

Lemma warmup_factor_ramp_witness :
  get_warmup_factor (set_epoch (init (1 # 10) 0 10) 7) = 1%Q /\
  (get_warmup_factor (set_epoch (init (1 # 10) 10 10) 3)
   <= get_warmup_factor (set_epoch (init (1 # 10) 10 10) 7))%Q /\
  (0 <= get_warmup_factor (set_epoch (init (1 # 10) 10 10) 3))%Q /\
  get_warmup_factor (set_epoch (init (1 # 10) 10 10) 12) = 1%Q.
Proof.
  split.
  - apply (proj1 (warmup_factor_ramp (init (1 # 10) 0 10))). vm_compute. discriminate.
  - assert (Hw : (0 < warmup_epochs (init (1 # 10) 10 10))%Q) by reflexivity.
    destruct (proj2 (warmup_factor_ramp (init (1 # 10) 10 10)) Hw)
      as (Hmono & _ & Hpos & Hone).
    split; [|split].
    + apply Hmono. vm_compute. discriminate.
    + apply Hpos. vm_compute. discriminate.
    + apply Hone. vm_compute. discriminate.
Defined.

(** C4 (as stated) fails: [set_epoch] accepts a negative epoch, and the
    factor is then negative, outside [0, 1]. *)
Lemma warmup_factor_negative_epoch :
  (0 < warmup_epochs (set_epoch (init (1 # 10) 10 10) (-1)))%Q /\
  (get_warmup_factor (set_epoch (init (1 # 10) 10 10) (-1)) == - (1 # 10))%Q /\
  ~ (0 <= get_warmup_factor (set_epoch (init (1 # 10) 10 10) (-1)))%Q.
Proof.
  split; [reflexivity|]. split; [reflexivity|].
  vm_compute. intros H. apply H. reflexivity.
Qed.

(** ** The combined loss *)

Section Wrapper.
Variable self : PhysicsInformedLoss.
Variables vel_init vel_pred : Tensor.
Variables n_nodes batch_size : Z.
Variable masses : option Tensor.

Lemma compute_physics_losses_disabled :
  (lambda_momentum self <= 0)%Q ->
  compute_physics_losses self vel_init vel_pred n_nodes batch_size masses
  = Ok (PyFloat 0,
        <["warmup_factor" := Fin (get_warmup_factor self)]>
          (<["total_physics" := Fin 0]> ∅)).
Proof.
  intros H. unfold compute_physics_losses.
  apply Qltb_false in H. rewrite H. reflexivity.
Qed.

Lemma compute_physics_losses_enabled :
  (0 < lambda_momentum self)%Q ->
  compute_physics_losses self vel_init vel_pred n_nodes batch_size masses
  = let? momentum_loss :=
      momentum_conservation_loss vel_init vel_pred n_nodes batch_size masses in
    Ok (TensorScalar (fadd (Fin 0) (weighted self momentum_loss)),
        <["warmup_factor" := Fin (get_warmup_factor self)]>
          (<["total_physics" := fadd (Fin 0) (weighted self momentum_loss)]>
             (<["momentum_clamped" := fclamp_max momentum_loss (ceiling self)]>
                (<["momentum" := momentum_loss]> ∅)))).
Proof.
  intros H. unfold compute_physics_losses.
  apply Qltb_true in H. rewrite H.
  destruct (momentum_conservation_loss _ _ _ _ _); reflexivity.
Qed.

Lemma compute_physics_losses_inv total losses :
  (0 < lambda_momentum self)%Q ->
  compute_physics_losses self vel_init vel_pred n_nodes batch_size masses
  = Ok (total, losses) ->
  exists momentum_loss,
    momentum_conservation_loss vel_init vel_pred n_nodes batch_size masses
    = Ok momentum_loss /\
    total = TensorScalar (fadd (Fin 0) (weighted self momentum_loss)) /\
    losses !! "momentum" = Some momentum_loss /\
    losses !! "momentum_clamped"
    = Some (fclamp_max momentum_loss (ceiling self)) /\
    losses !! "total_physics" = Some (fadd (Fin 0) (weighted self momentum_loss)) /\
    losses !! "warmup_factor" = Some (Fin (get_warmup_factor self)).
Proof.
  intros Hl Hrun. rewrite compute_physics_losses_enabled in Hrun by exact Hl.
  destruct (momentum_conservation_loss _ _ _ _ _) as [ml|e]; [|discriminate].
  cbn [rbind] in Hrun. injection Hrun as <- <-.
  exists ml. repeat split; reflexivity.
Qed.
End Wrapper.

Lemma feq_fadd_0 (x : fval) : feq (fadd (Fin 0) x) x.
Proof. destruct x; cbn; [ring | exact I]. Qed.

(** The ceiling keeps the weighted loss below [max_physics_loss] as soon as
    the ceiling is non-negative or the weight is at least [eps]. *)
Lemma weighted_ceiling_le (lam mx : Q) :
  (0 < lam)%Q -> (0 <= mx \/ eps <= lam)%Q ->
  (lam * (mx / Qmax lam eps) <= mx)%Q.
Proof.
  intros Hl Hcase.
  assert (He := eps_pos).
  assert (Hm : (0 < Qmax lam eps)%Q).
  { eapply Qlt_le_trans; [exact Hl | apply Q.le_max_l]. }
  assert (Hml : (lam <= Qmax lam eps)%Q) by apply Q.le_max_l.
  assert (Hq : (lam * (mx / Qmax lam eps) == mx * (lam / Qmax lam eps))%Q).
  { field. lra. }
  rewrite Hq.
  assert (Hr0 : (0 <= lam / Qmax lam eps)%Q).
  { apply Qdiv_nonneg; lra. }
  assert (Hr1 : (lam / Qmax lam eps <= 1)%Q).
  { apply Qle_shift_div_r; lra. }
  destruct Hcase as [Hmx | Hle].
  - nra.
  - assert (Hmax : (Qmax lam eps == lam)%Q) by (apply Q.max_l; exact Hle).
    assert (Hone : (lam / Qmax lam eps == 1)%Q).
    { rewrite Hmax. field. lra. }
    rewrite Hone. lra.
Qed.




(** C3.  With a positive weight, a run that returns yields
    [lambda_momentum * momentum_loss_clamped * warmup_factor], where the
    clamped loss is the one stored under [momentum_clamped]. *)
Theorem total_is_weighted_clamped_warmed
  (self : PhysicsInformedLoss) (vel_init vel_pred : Tensor)
  (n_nodes batch_size : Z) (masses : option Tensor)
  (total : total_t) (losses : gmap string fval) :
  (0 < lambda_momentum self)%Q ->
  compute_physics_losses self vel_init vel_pred n_nodes batch_size masses
  = Ok (total, losses) ->
  exists momentum_loss x,
    momentum_conservation_loss vel_init vel_pred n_nodes batch_size masses
    = Ok momentum_loss /\
    losses !! "momentum_clamped"
    = Some (fclamp_max momentum_loss (ceiling self)) /\
    total = TensorScalar x /\
    feq x (fmul (fmul (Fin (lambda_momentum self))
                      (fclamp_max momentum_loss (ceiling self)))
                (Fin (get_warmup_factor self))).
Proof.
  intros Hl Hrun.
  destruct (compute_physics_losses_inv _ _ _ _ _ _ _ _ Hl Hrun)
    as (ml & Hml & Ht & _ & Hc & _).
  eexists ml, _. split; [exact Hml|]. split; [exact Hc|].
  split; [exact Ht|]. apply feq_fadd_0.
Qed.

Lemma total_is_weighted_clamped_warmed_witness :
  exists momentum_loss x,
    momentum_conservation_loss vel_two_samples vel_two_samples_pushed 3 2 None
    = Ok momentum_loss /\
    report_of (compute_physics_losses default_loss vel_two_samples
                 vel_two_samples_pushed 3 2 None) !! "momentum_clamped"
    = Some (fclamp_max momentum_loss (ceiling default_loss)) /\
    total_of (compute_physics_losses default_loss vel_two_samples
                vel_two_samples_pushed 3 2 None) = TensorScalar x /\
    feq x (fmul (fmul (Fin (lambda_momentum default_loss))
                      (fclamp_max momentum_loss (ceiling default_loss)))
                (Fin (get_warmup_factor default_loss))).
Proof.
  apply (total_is_weighted_clamped_warmed default_loss vel_two_samples
           vel_two_samples_pushed 3 2 None).
  - reflexivity.
  - vm_compute. reflexivity.
Defined.

(** C5.  With [lambda_momentum <= 0] the total is the float 0.0 and the
    report has exactly the keys [total_physics] and [warmup_factor]. *)
Theorem disabled_term_report
  (self : PhysicsInformedLoss) (vel_init vel_pred : Tensor)
  (n_nodes batch_size : Z) (masses : option Tensor) :
  (lambda_momentum self <= 0)%Q ->
  exists losses : gmap string fval,
    compute_physics_losses self vel_init vel_pred n_nodes batch_size masses
    = Ok (PyFloat 0, losses) /\
    dom losses = ({["total_physics"; "warmup_factor"]} : gset string) /\
    losses !! "momentum" = None /\
    losses !! "momentum_clamped" = None.
Proof.
  intros H. eexists. split.
  - apply compute_physics_losses_disabled. exact H.
  - split; [|split; reflexivity].
    rewrite !dom_insert_L, dom_empty_L. set_solver.
Qed.

Lemma disabled_term_report_witness :
  exists losses : gmap string fval,
    compute_physics_losses (init 0 0 10) vel_two_samples
      vel_two_samples_pushed 3 2 None
    = Ok (PyFloat 0, losses) /\
    dom losses = ({["total_physics"; "warmup_factor"]} : gset string) /\
    losses !! "momentum" = None /\
    losses !! "momentum_clamped" = None.
Proof.
  apply (disabled_term_report (init 0 0 10)). vm_compute. discriminate.
Defined.

(** C10 (as amended).  With a positive weight and a raw momentum loss that is
    a number, the clamped entry of the report is at most the raw one, and the
    two are equal when the raw loss does not exceed the ceiling. *)
Theorem clamp_is_upper_only
  (self : PhysicsInformedLoss) (vel_init vel_pred : Tensor)
  (n_nodes batch_size : Z) (masses : option Tensor)
  (total : total_t) (losses : gmap string fval) (raw : Q) :
  (0 < lambda_momentum self)%Q ->
  compute_physics_losses self vel_init vel_pred n_nodes batch_size masses
  = Ok (total, losses) ->
  losses !! "momentum" = Some (Fin raw) ->
  exists c,
    losses !! "momentum_clamped" = Some (Fin c) /\
    fle (Fin c) (Fin raw) /\
    ((raw <= ceiling self)%Q -> c = raw).
Proof.
  intros Hl Hrun Hraw.
  destruct (compute_physics_losses_inv _ _ _ _ _ _ _ _ Hl Hrun)
    as (ml & _ & _ & Hm & Hc & _).
  rewrite Hm in Hraw. injection Hraw as ->.
  exists (Qmin raw (ceiling self)). split; [exact Hc|]. split.
  - cbn. apply Q.le_min_l.
  - intros Hle. unfold Qmin, GenericMinMax.gmin.
    destruct (raw ?= ceiling self)%Q eqn:E; try reflexivity.
    apply Qgt_alt in E. lra.
Qed.

Lemma clamp_is_upper_only_witness :
  exists c,
    report_of (compute_physics_losses default_loss vel_two_samples
                 vel_two_samples_pushed 3 2 None) !! "momentum_clamped"
    = Some (Fin c) /\
    fle (Fin c) (Fin (4 # 8)) /\
    ((4 # 8 <= ceiling default_loss)%Q -> c = 4 # 8).
Proof.
  apply (clamp_is_upper_only default_loss vel_two_samples
           vel_two_samples_pushed 3 2 None
           (total_of (compute_physics_losses default_loss vel_two_samples
                        vel_two_samples_pushed 3 2 None))).
  - reflexivity.
  - vm_compute. reflexivity.
  - vm_compute. reflexivity.
Defined.

(** C10 (as stated) fails on a batch without samples: both entries of the
    report are nan, and nan is not at most nan. *)
Lemma clamp_of_nan_not_below :
  (0 < lambda_momentum default_loss)%Q /\
  exists total losses,
    compute_physics_losses default_loss vel_no_rows vel_no_rows 3 0 None
    = Ok (total, losses) /\
    losses !! "momentum" = Some NaN /\
    losses !! "momentum_clamped" = Some NaN /\
    ~ fle NaN NaN.
Proof.
  split; [reflexivity|].
  eexists _, _. split; [vm_compute; reflexivity|].
  split; [vm_compute; reflexivity|].
  split; [vm_compute; reflexivity|]. intros [].
Qed.

(** ** The error monad *)

Lemma rbind_Ok {A B} (r : result A) (k : A -> result B) (b : B) :
  rbind r k = Ok b -> exists a, r = Ok a /\ k a = Ok b.
Proof. destruct r as [a|e]; cbn; [eauto | discriminate]. Qed.

Lemma rbind_Err {A B} (r : result A) (k : A -> result B) (e : ErrorKind) :
  rbind r k = Err e -> r = Err e \/ exists a, r = Ok a /\ k a = Err e.
Proof. destruct r as [a|e']; cbn; [eauto | intros [= <-]; auto]. Qed.

(** ** view *)

Lemma is_infer_nonneg (z : Z) : (0 <= z)%Z -> is_infer z = false.
Proof. intros H. unfold is_infer. apply Z.eqb_neq. lia. Qed.

(** With non-negative sizes, [view] succeeds exactly when the sizes account
    for the entries of the tensor. *)
Lemma view_grouped (vel : Tensor) (b n : Z) :
  (0 <= b)%Z -> (0 <= n)%Z ->
  view vel [b; n; 3%Z]
  = if Z.to_nat b * (Z.to_nat n * 3) =? numel vel
    then Ok (mkTensor [Z.to_nat b; Z.to_nat n; 3] (data vel))
    else Err ShapeMismatch.
Proof.
  intros Hb Hn. unfold view, infer_size.
  assert (Hex : existsb (fun z => (z <? -1)%Z) [b; n; 3%Z] = false).
  { cbn. rewrite !orb_false_r. apply orb_false_iff.
    split; apply Z.ltb_ge; lia. }
  rewrite Hex.
  assert (Hb' := is_infer_nonneg b Hb). assert (Hn' := is_infer_nonneg n Hn).
  cbn [List.filter]. rewrite Hb', Hn'. cbn [is_infer Z.eqb negb length fold_right].
  replace (Z.to_nat (b * (n * (3 * 1)))) with (Z.to_nat b * (Z.to_nat n * 3)).
  2:{ rewrite !Z2Nat.inj_mul by lia. cbn. lia. }
  destruct (_ =? _); reflexivity.
Qed.

Lemma numel_rows (vel : Tensor) (rows : nat) :
  shape vel = [rows; 3] -> numel vel = rows * 3.
Proof. intros H. unfold numel. rewrite H. cbn. lia. Qed.

(** ** Shapes under broadcasting *)

Lemma bshape_length (s1 s2 s : list nat) :
  bshape s1 s2 = Some s -> length s = length s1 /\ length s = length s2.
Proof.
  revert s2 s. induction s1 as [|a s1 IH]; intros [|c s2] s H; cbn in H;
    try discriminate.
  - injection H as <-. auto.
  - destruct (bdim a c); [|discriminate].
    destruct (bshape s1 s2) as [s'|] eqn:E; [|discriminate].
    injection H as <-. destruct (IH _ _ E). cbn. auto.
Qed.

Lemma pad_shape_length (r : nat) (s : list nat) :
  length s <= r -> length (pad_shape r s) = r.
Proof.
  intros H. unfold pad_shape. rewrite length_app, length_replicate. lia.
Qed.

Lemma broadcast_shapes_length (s1 s2 s : list nat) :
  broadcast_shapes s1 s2 = Some s ->
  length s = Nat.max (length s1) (length s2).
Proof.
  unfold broadcast_shapes. intros H.
  apply bshape_length in H as [H _].
  rewrite H. apply pad_shape_length. lia.
Qed.

Lemma binop_Ok_dim (f : Q -> Q -> Q) (t1 t2 p : Tensor) :
  binop f t1 t2 = Ok p -> dim p = Nat.max (dim t1) (dim t2).
Proof.
  unfold binop. destruct (broadcast_shapes _ _) as [s|] eqn:E; [|discriminate].
  intros [= <-]. unfold dim at 1. cbn. now apply broadcast_shapes_length.
Qed.

Lemma binop_Err (f : Q -> Q -> Q) (t1 t2 : Tensor) (e : ErrorKind) :
  binop f t1 t2 = Err e <->
  e = ShapeMismatch /\ broadcast_shapes (shape t1) (shape t2) = None.
Proof.
  unfold binop. destruct (broadcast_shapes _ _) as [s|]; split.
  - discriminate.
  - intros [_ ?]. discriminate.
  - intros [= <-]. auto.
  - intros [-> _]. reflexivity.
Qed.

Lemma norm_dim_1 (r : nat) : 2 <= r -> norm_dim r 1 = Ok 1.
Proof.
  intros H. unfold norm_dim.
  replace (Nat.max r 1) with r by lia.
  assert (Hc : ((- Z.of_nat r <=? 1) && (1 <? Z.of_nat r))%Z = true).
  { apply andb_true_iff. split; [apply Z.leb_le | apply Z.ltb_lt]; lia. }
  rewrite Hc. rewrite Z.mod_small by lia. reflexivity.
Qed.

Lemma norm_dim_last (r : nat) : 1 <= r -> norm_dim r (-1) = Ok (r - 1).
Proof.
  intros H. unfold norm_dim.
  replace (Nat.max r 1) with r by lia.
  assert (Hc : ((- Z.of_nat r <=? -1) && (-1 <? Z.of_nat r))%Z = true).
  { apply andb_true_iff. split; [apply Z.leb_le | apply Z.ltb_lt]; lia. }
  rewrite Hc.
  assert (Hm : (-1 mod Z.of_nat r = Z.of_nat r - 1)%Z).
  { symmetry. apply (Z.mod_unique (-1) (Z.of_nat r) (-1) (Z.of_nat r - 1)); lia. }
  rewrite Hm. f_equal. lia.
Qed.

(** On a 3-axis array the only failure is a failed broadcast of the masses. *)
Lemma compute_linear_momentum_3axis_Err
  (vel : Tensor) (masses : option Tensor) (e : ErrorKind) :
  dim vel = 3 ->
  compute_linear_momentum vel masses = Err e <->
  e = ShapeMismatch /\
  exists m, masses = Some m /\
            broadcast_shapes (shape vel) (shape m ++ [1]) = None.
Proof.
  intros Hd. unfold compute_linear_momentum. rewrite Hd. cbn [Nat.eqb].
  destruct masses as [m|].
  - destruct (tmul vel (unsqueeze_last m)) as [p|e'] eqn:E; cbn [rbind].
    + apply binop_Ok_dim in E as Hp.
      unfold sum_dim. rewrite norm_dim_1 by lia. cbn [rbind].
      split; [discriminate|].
      intros (_ & m' & [= <-] & Hb).
      unfold tmul, binop in E. cbn [unsqueeze_last shape] in E.
      rewrite Hb in E. discriminate.
    + apply binop_Err in E as [-> Hb]. split.
      * intros [= <-]. split; [reflexivity|]. exists m. auto.
      * intros [-> _]. reflexivity.
  - unfold sum_dim. rewrite Hd, norm_dim_1 by lia. cbn [rbind].
    split; [discriminate|]. intros (_ & m & Hm & _). discriminate.
Qed.

(** C7.  On a flat array of shape (b*n, 3), the batched momentum is the
    momentum of the array regrouped as (b, n, 3), with the same masses; this
    covers the failures as well. *)
Theorem batched_momentum_is_grouped_momentum
  (vel : Tensor) (b n : nat) (masses : option Tensor) :
  shape vel = [b * n; 3] ->
  compute_linear_momentum_batched vel (Z.of_nat n) (Z.of_nat b) masses
  = compute_linear_momentum (regroup b n vel) masses.
Proof.
  intros Hs. unfold compute_linear_momentum_batched.
  rewrite view_grouped by lia.
  rewrite !Nat2Z.id, (numel_rows _ _ Hs).
  replace (b * (n * 3) =? b * n * 3) with true by (symmetry; apply Nat.eqb_eq; lia).
  reflexivity.
Qed.

Lemma batched_momentum_is_grouped_momentum_witness :
  compute_linear_momentum_batched vel_two_samples 3 2 None
  = compute_linear_momentum (regroup 2 3 vel_two_samples) None.
Proof.
  apply (batched_momentum_is_grouped_momentum vel_two_samples 2 3 None).
  reflexivity.
Defined.

(** C6 (as amended).  For a flat array of [rows] rows and non-negative
    [n_nodes] and [batch_size], the batched momentum fails with
    [ShapeMismatch] exactly when [rows] differs from [batch_size * n_nodes]
    or the given masses, with their added trailing axis, do not broadcast
    against (batch_size, n_nodes, 3); without masses, exactly when [rows]
    differs from [batch_size * n_nodes].  No other error occurs, and the
    error of the reshape or of the momentum computation reaches the caller
    as it is. *)
Theorem batched_momentum_failure
  (vel : Tensor) (rows : nat) (n_nodes batch_size : Z)
  (masses : option Tensor) :
  shape vel = [rows; 3] -> (0 <= n_nodes)%Z -> (0 <= batch_size)%Z ->
  (compute_linear_momentum_batched vel n_nodes batch_size masses
   = Err ShapeMismatch <->
   Z.of_nat rows <> (batch_size * n_nodes)%Z \/
   exists m, masses = Some m /\
             broadcast_shapes [Z.to_nat batch_size; Z.to_nat n_nodes; 3]
                              (shape m ++ [1]) = None) /\
  (masses = None ->
   (compute_linear_momentum_batched vel n_nodes batch_size masses
    = Err ShapeMismatch <->
    Z.of_nat rows <> (batch_size * n_nodes)%Z)) /\
  (forall e,
     compute_linear_momentum_batched vel n_nodes batch_size masses = Err e ->
     e = ShapeMismatch) /\
  (forall e,
     view vel [batch_size; n_nodes; 3%Z] = Err e ->
     compute_linear_momentum_batched vel n_nodes batch_size masses = Err e) /\
  (forall e vel_pred,
     compute_linear_momentum_batched vel n_nodes batch_size masses = Err e ->
     momentum_conservation_loss vel vel_pred n_nodes batch_size masses = Err e).
Proof.
  intros Hs Hn Hb.
  assert (Hchar : forall e,
    compute_linear_momentum_batched vel n_nodes batch_size masses = Err e <->
    e = ShapeMismatch /\
    (Z.of_nat rows <> (batch_size * n_nodes)%Z \/
     exists m, masses = Some m /\
               broadcast_shapes [Z.to_nat batch_size; Z.to_nat n_nodes; 3]
                                (shape m ++ [1]) = None)).
  { intros e. unfold compute_linear_momentum_batched.
    rewrite view_grouped by assumption. rewrite (numel_rows _ _ Hs).
    destruct (_ =? _) eqn:E.
    - apply Nat.eqb_eq in E. cbn [rbind].
      rewrite compute_linear_momentum_3axis_Err by reflexivity.
      cbn [shape]. split.
      + intros [-> Hm]. auto.
      + intros [-> [Hne | Hm]]; [|auto].
        exfalso. apply Hne.
        rewrite <- (Z2Nat.id batch_size), <- (Z2Nat.id n_nodes) by assumption.
        rewrite <- Nat2Z.inj_mul. f_equal. lia.
    - apply Nat.eqb_neq in E. cbn [rbind]. split.
      + intros [= <-]. split; [reflexivity|]. left. intros Heq.
        apply E.
        assert (rows = Z.to_nat batch_size * Z.to_nat n_nodes); [|lia].
        apply Nat2Z.inj. rewrite Heq, Nat2Z.inj_mul, !Z2Nat.id by assumption.
        reflexivity.
      + intros [-> _]. reflexivity. }
  split; [|split; [|split; [|split]]].
  - rewrite Hchar. split; [intros [_ H]; exact H | auto].
  - intros ->. rewrite Hchar. split.
    + intros [_ [H | (m & Hm & _)]]; [exact H | discriminate].
    + auto.
  - intros e He. apply Hchar in He as [-> _]. reflexivity.
  - intros e He. unfold compute_linear_momentum_batched. now rewrite He.
  - intros e vel_pred He. unfold momentum_conservation_loss. now rewrite He.
Qed.

Lemma batched_momentum_failure_witness :
  (compute_linear_momentum_batched vel_four_rows 2 2 (Some masses_flat_four)
   = Err ShapeMismatch <->
   Z.of_nat 4 <> (2 * 2)%Z \/
   exists m, Some masses_flat_four = Some m /\
             broadcast_shapes [Z.to_nat 2; Z.to_nat 2; 3] (shape m ++ [1])
             = None) /\
  (compute_linear_momentum_batched vel_two_samples 3 3 None
   = Err ShapeMismatch <-> Z.of_nat 6 <> (3 * 3)%Z).
Proof.
  split.
  - apply (batched_momentum_failure vel_four_rows 4 2 2 (Some masses_flat_four));
      [reflexivity | lia | lia].
  - apply (batched_momentum_failure vel_two_samples 6 3 3 None);
      [reflexivity | lia | lia | reflexivity].
Defined.

(** C6 (as stated) fails in both directions.  Four rows for two samples of
    two particles, with one mass per particle in a flat array: the row count
    is right and the call still fails with [ShapeMismatch], on the broadcast.
    Six rows with [n_nodes = 3] and [batch_size = -1]: the row count differs
    from [batch_size * n_nodes] and the call succeeds, the reshape inferring
    two samples. *)
Lemma batched_momentum_failure_not_only_rows :
  (shape vel_four_rows = [4; 3] /\
   Z.of_nat 4 = (2 * 2)%Z /\
   compute_linear_momentum_batched vel_four_rows 2 2 (Some masses_flat_four)
   = Err ShapeMismatch) /\
  (shape vel_two_samples = [6; 3] /\
   Z.of_nat 6 <> (-1 * 3)%Z /\
   compute_linear_momentum_batched vel_two_samples 3 (-1) None
   = Ok (mkTensor [2; 3] [1; 0; 0; 0; 2; 0]%Q)).
Proof.
  split.
  - split; [reflexivity|]. split; [reflexivity|]. vm_compute. reflexivity.
  - split; [reflexivity|]. split; [discriminate|]. vm_compute. reflexivity.
Qed.

(** ** Blocks of row-major data *)

Section Chunks.
Implicit Types (d e c : list Q) (A : list (list Q)).

Lemma length_chunks k sz d : length (chunks k sz d) = k.
Proof. revert d. induction k as [|k IH]; intros d; cbn; [|rewrite IH]; reflexivity. Qed.

Lemma chunks_concat A sz :
  Forall (fun c => length c = sz) A -> chunks (length A) sz (concat A) = A.
Proof.
  induction 1 as [|c A Hc _ IH]; cbn; [reflexivity|].
  rewrite take_app_length', drop_app_length' by (symmetry; exact Hc).
  now rewrite IH.
Qed.

Lemma chunks_concat_eq A k sz :
  length A = k -> Forall (fun c => length c = sz) A ->
  chunks k sz (concat A) = A.
Proof. intros <-. apply chunks_concat. Qed.

Lemma concat_chunks k sz d :
  length d = k * sz -> concat (chunks k sz d) = d.
Proof.
  revert d. induction k as [|k IH]; intros d H; cbn.
  - destruct d; [reflexivity | discriminate].
  - rewrite IH; [apply take_drop|]. rewrite length_drop. lia.
Qed.

Lemma Forall_length_chunks k sz d :
  length d = k * sz -> Forall (fun c => length c = sz) (chunks k sz d).
Proof.
  revert d. induction k as [|k IH]; intros d H; cbn; constructor.
  - rewrite length_take. lia.
  - apply IH. rewrite length_drop. lia.
Qed.

Lemma chunks_zip_with (f : Q -> Q -> Q) k sz d e :
  chunks k sz (zip_with f d e)
  = zip_with (zip_with f) (chunks k sz d) (chunks k sz e).
Proof.
  revert d e. induction k as [|k IH]; intros d e; cbn; [reflexivity|].
  rewrite zip_with_take, zip_with_drop, IH. reflexivity.
Qed.

Lemma chunks_map (f : Q -> Q) k sz d :
  chunks k sz (map f d) = map (map f) (chunks k sz d).
Proof.
  revert d. induction k as [|k IH]; intros d; cbn; [reflexivity|].
  rewrite firstn_map, skipn_map, IH. reflexivity.
Qed.

Lemma chunks_replicate k sz (x : Q) :
  chunks k sz (replicate (k * sz) x) = replicate k (replicate sz x).
Proof.
  induction k as [|k IH]; cbn; [reflexivity|].
  rewrite take_replicate, drop_replicate.
  replace (sz `min` (sz + k * sz)) with sz by lia.
  replace (sz + k * sz - sz) with (k * sz) by lia.
  now rewrite IH.
Qed.

Lemma Forall_chunks (P : Q -> Prop) k sz d :
  Forall P d -> Forall (Forall P) (chunks k sz d).
Proof.
  revert d. induction k as [|k IH]; intros d H; cbn; constructor.
  - now apply Forall_take.
  - now apply IH, Forall_drop.
Qed.
End Chunks.

Lemma map_replicate {A B} (f : A -> B) n (x : A) :
  map f (replicate n x) = replicate n (f x).
Proof. induction n as [|n IH]; cbn; [|rewrite IH]; reflexivity. Qed.

Lemma concat_replicate_replicate {A} k m (x : A) :
  concat (replicate k (replicate m x)) = replicate (k * m) x.
Proof.
  induction k as [|k IH]; cbn; [reflexivity|].
  now rewrite IH, replicate_add.
Qed.

Lemma map_id_Forall {A} (f : A -> A) (l : list A) :
  Forall (fun x => f x = x) l -> map f l = l.
Proof. induction 1 as [|x l Hx _ IH]; cbn; [|rewrite Hx, IH]; reflexivity. Qed.

Lemma concat_map_map {A B} (f : A -> B) (l : list (list A)) :
  concat (map (map f) l) = map f (concat l).
Proof. symmetry. apply concat_map. Qed.

Lemma concat_zip_with {A B C} (f : A -> B -> C) n (X : list (list A)) (Y : list (list B)) :
  Forall (fun c => length c = n) X -> Forall (fun c => length c = n) Y ->
  length X = length Y ->
  concat (zip_with (zip_with f) X Y) = zip_with f (concat X) (concat Y).
Proof.
  intros HX. revert Y. induction HX as [|x X Hx _ IH]; intros Y HY Hlen.
  - destruct Y; [reflexivity | discriminate].
  - destruct Y as [|y Y]; [discriminate|].
    apply Forall_cons in HY as [Hy HY]. cbn.
    rewrite zip_with_app by congruence.
    rewrite IH; [reflexivity | exact HY | now injection Hlen].
Qed.

(** ** Laying data out in a broadcast shape *)

Lemma expand_id (s : list nat) (d : list Q) :
  length d = numel_of s -> expand s s d = d.
Proof.
  revert d. induction s as [|a s IH]; intros d H; cbn; [reflexivity|].
  rewrite Nat.eqb_refl. cbn in H.
  rewrite map_id_Forall; [now apply concat_chunks|].
  eapply Forall_impl; [apply Forall_length_chunks; exact H|].
  intros c Hc. now apply IH.
Qed.

Lemma expand_replicate (s t : list nat) (x : Q) :
  expands_to s t ->
  expand s t (replicate (numel_of s) x) = replicate (numel_of t) x.
Proof.
  induction 1 as [|a c s t Hac _ IH]; [reflexivity|].
  cbn [expand].
  change (numel_of (a :: s)) with (a * numel_of s).
  change (numel_of (c :: t)) with (c * numel_of t).
  rewrite chunks_replicate, map_replicate, IH.
  destruct (a =? c) eqn:E.
  - apply Nat.eqb_eq in E as ->. apply concat_replicate_replicate.
  - apply Nat.eqb_neq in E. destruct Hac as [-> | ->]; [congruence|].
    cbn. rewrite app_nil_r. apply concat_replicate_replicate.
Qed.

Lemma Forall_replicate_concat {A} (P : A -> Prop) (n : nat) (l : list A) :
  Forall P l -> Forall P (concat (replicate n l)).
Proof.
  intros H. induction n as [|n IH]; cbn; [constructor|].
  apply Forall_app. auto.
Qed.

Lemma Forall_concat_map {A B} (P : B -> Prop) (f : A -> list B) (L : list A) :
  (forall l, Forall P (f l)) -> Forall P (concat (map f L)).
Proof.
  intros H. induction L as [|l L IH]; cbn; [constructor|].
  apply Forall_app. auto.
Qed.

Lemma Forall_concat_map_in {A B} (Q0 : A -> Prop) (P : B -> Prop)
  (f : A -> list B) (L : list A) :
  (forall l, Q0 l -> Forall P (f l)) -> Forall Q0 L ->
  Forall P (concat (map f L)).
Proof.
  intros H. induction 1 as [|l L Hl _ IH]; cbn; [constructor|].
  apply Forall_app. auto.
Qed.

Lemma expand_Forall (P : Q -> Prop) (s t : list nat) (d : list Q) :
  Forall P d -> Forall P (expand s t d).
Proof.
  revert t d. induction s as [|a s IH]; intros [|c t] d H; cbn; try exact H.
  assert (Hb : Forall P (concat (map (expand s t) (chunks a (numel_of s) d)))).
  { apply (Forall_concat_map_in (Forall P)); [apply IH|].
    now apply Forall_chunks. }
  destruct (a =? c); [exact Hb|].
  now apply Forall_replicate_concat.
Qed.

Lemma pad_shape_same (s : list nat) : pad_shape (length s) s = s.
Proof. unfold pad_shape. now rewrite Nat.sub_diag. Qed.

Lemma bdim_same (a : nat) : bdim a a = Some a.
Proof. unfold bdim. now rewrite Nat.eqb_refl. Qed.

Lemma bdim_1_r (k : nat) : bdim k 1 = Some k.
Proof. unfold bdim. destruct (k =? 1); reflexivity. Qed.

Lemma bshape_same (s : list nat) : bshape s s = Some s.
Proof. induction s as [|a s IH]; cbn; [|rewrite bdim_same, IH]; reflexivity. Qed.

Lemma broadcast_shapes_same (s : list nat) : broadcast_shapes s s = Some s.
Proof.
  unfold broadcast_shapes. rewrite Nat.max_id, pad_shape_same. apply bshape_same.
Qed.

Lemma bshape_trailing_1 (s : list nat) (k : nat) :
  bshape (s ++ [k]) (s ++ [1]) = Some (s ++ [k]).
Proof.
  induction s as [|a s IH]; cbn.
  - now rewrite bdim_1_r.
  - now rewrite bdim_same, IH.
Qed.

Lemma numel_of_app (s t : list nat) :
  numel_of (s ++ t) = numel_of s * numel_of t.
Proof.
  induction s as [|a s IH].
  - cbn [app]. change (numel_of []) with 1. lia.
  - change (numel_of ((a :: s) ++ t)) with (a * numel_of (s ++ t)).
    change (numel_of (a :: s)) with (a * numel_of s). rewrite IH. lia.
Qed.

Lemma expands_to_trailing_1 (s : list nat) (k : nat) :
  expands_to (s ++ [1]) (s ++ [k]).
Proof.
  apply Forall2_app.
  - induction s; constructor; auto.
  - constructor; [auto | constructor].
Qed.

Lemma Qmult_1_r_eq (x : Q) : (x * 1)%Q = x.
Proof.
  destruct x as [p q]. unfold Qmult. cbn [Qnum Qden].
  now rewrite Z.mul_1_r, Pos.mul_1_r.
Qed.

Lemma zip_with_mul_ones (d : list Q) (n : nat) :
  length d = n -> zip_with Qmult d (replicate n 1%Q) = d.
Proof.
  revert n. induction d as [|x d IH]; intros [|n] H; try discriminate; cbn.
  - reflexivity.
  - rewrite Qmult_1_r_eq, IH; [reflexivity | now injection H].
Qed.

Lemma length_trailing (s : list nat) (k : nat) :
  length (s ++ [1]) = length (s ++ [k]).
Proof. now rewrite !length_app. Qed.

Lemma broadcast_shapes_trailing_1 (s : list nat) (k : nat) :
  broadcast_shapes (s ++ [k]) (s ++ [1]) = Some (s ++ [k]).
Proof.
  unfold broadcast_shapes.
  rewrite (length_trailing s k), Nat.max_id, pad_shape_same.
  rewrite <- (length_trailing s k), pad_shape_same.
  apply bshape_trailing_1.
Qed.

(** Multiplying by unit masses returns the velocities themselves. *)
Lemma tmul_ones (vel : Tensor) (s : list nat) (k : nat) :
  shape vel = s ++ [k] -> wf vel ->
  tmul vel (unsqueeze_last (ones s)) = Ok vel.
Proof.
  intros Hs Hwf. destruct vel as [sh dt]. cbn [shape] in Hs. subst sh.
  unfold wf, numel in Hwf. cbn [shape data] in Hwf.
  unfold tmul, binop, unsqueeze_last, ones, dim. cbn [shape data].
  rewrite broadcast_shapes_trailing_1.
  rewrite (length_trailing s k), Nat.max_id, pad_shape_same.
  rewrite <- (length_trailing s k), pad_shape_same.
  rewrite expand_id by exact Hwf.
  replace (numel_of s) with (numel_of (s ++ [1]))
    by (rewrite numel_of_app; cbn; lia).
  rewrite expand_replicate by apply expands_to_trailing_1.
  rewrite zip_with_mul_ones by exact Hwf.
  reflexivity.
Qed.

(** C9.  On a velocity array whose last axis holds the components, the
    momentum without masses is the momentum with an all-ones mass array of
    the shape of the other axes: (batch, n_nodes) for the 3-axis form and
    (n_total) for the 2-axis form. *)
Theorem unit_masses_are_default (vel : Tensor) (s : list nat) (k : nat) :
  shape vel = s ++ [k] -> wf vel ->
  compute_linear_momentum vel None
  = compute_linear_momentum vel (Some (ones s)).
Proof.
  intros Hs Hwf. unfold compute_linear_momentum.
  rewrite (tmul_ones vel s k Hs Hwf). cbn [rbind].
  destruct (dim vel =? 3); reflexivity.
Qed.

Lemma unit_masses_are_default_witness :
  compute_linear_momentum (regroup 2 3 vel_two_samples) None
  = compute_linear_momentum (regroup 2 3 vel_two_samples) (Some (ones [2; 3])) /\
  compute_linear_momentum vel_two_samples None
  = compute_linear_momentum vel_two_samples (Some (ones [6])).
Proof.
  split.
  - apply (unit_masses_are_default (regroup 2 3 vel_two_samples) [2; 3] 3);
      reflexivity.
  - apply (unit_masses_are_default vel_two_samples [6] 3); reflexivity.
Defined.

(** ** Data that is zero everywhere *)

Lemma all_zero_sub_self (l : list Q) : all_zero (zip_with Qminus l l).
Proof. induction l as [|x l IH]; cbn; constructor; [ring | exact IH]. Qed.

Lemma all_zero_pow2 (d : list Q) :
  all_zero d -> all_zero (map (fun x => (x ^ 2)%Q) d).
Proof.
  induction 1 as [|x d Hx _ IH]; cbn [map]; constructor; [|exact IH].
  cbn. rewrite Hx. ring.
Qed.

Lemma all_zero_vadd (u v : list Q) :
  all_zero u -> all_zero v -> all_zero (vadd u v).
Proof.
  intros Hu. revert v. induction Hu as [|x u Hx _ IH]; intros v Hv; cbn.
  - constructor.
  - destruct Hv as [|y v Hy Hv]; cbn; constructor; [|now apply IH].
    rewrite Hx, Hy. ring.
Qed.

Lemma all_zero_replicate (n : nat) : all_zero (replicate n 0%Q).
Proof. induction n; cbn; constructor; [reflexivity | assumption]. Qed.

Lemma all_zero_sum_axis (k : nat) (s : list nat) (d : list Q) :
  all_zero d -> all_zero (sum_axis k s d).
Proof.
  revert k d. induction s as [|a s IH]; intros k d H; [exact H|].
  destruct k as [|k]; cbn [sum_axis].
  - assert (Hc := Forall_chunks _ a (numel_of s) d H).
    induction Hc as [|c cs Hc _ IHc]; cbn.
    + apply all_zero_replicate.
    + now apply all_zero_vadd.
  - apply (Forall_concat_map_in all_zero); [apply IH|].
    now apply Forall_chunks.
Qed.

Lemma all_zero_div (u v : list Q) :
  all_zero u -> all_zero (zip_with Qdiv u v).
Proof.
  intros Hu. revert v. induction Hu as [|x u Hx _ IH]; intros [|y v]; cbn;
    constructor; [|apply IH].
  unfold Qdiv. rewrite Hx. ring.
Qed.

Lemma all_zero_qsum (d : list Q) : all_zero d -> (qsum d == 0)%Q.
Proof.
  induction 1 as [|x d Hx _ IH]; cbn; [reflexivity|].
  rewrite Hx, IH. ring.
Qed.

Lemma mean_all_zero (t : Tensor) :
  all_zero (data t) ->
  (numel t = 0 /\ mean t = NaN) \/
  (numel t <> 0 /\ exists q, mean t = Fin q /\ (q == 0)%Q).
Proof.
  intros H. unfold mean. destruct (numel t =? 0) eqn:E.
  - left. apply Nat.eqb_eq in E. auto.
  - right. apply Nat.eqb_neq in E. split; [exact E|].
    eexists. split; [reflexivity|].
    unfold Qdiv. rewrite (all_zero_qsum _ H). ring.
Qed.

(** ** Momentum of the grouped array, sample by sample *)

Lemma length_vadd (u v : list Q) : length (vadd u v) = Nat.min (length u) (length v).
Proof. apply length_zip_with. Qed.

Lemma length_vsum (vs : list (list Q)) :
  Forall (fun v => length v = 3) vs -> length (vsum vs) = 3.
Proof.
  induction 1 as [|v vs Hv _ IH]; cbn; [reflexivity|].
  rewrite length_vadd. unfold vsum in IH. rewrite Hv, IH. reflexivity.
Qed.

Lemma Forall_length_weigh (vs : list (list Q)) (ms : list Q) :
  Forall (fun v => length v = 3) vs ->
  Forall (fun v => length v = 3) (zip_with weigh vs ms).
Proof.
  intros H. revert ms. induction H as [|v vs Hv _ IH]; intros [|m ms]; cbn;
    constructor; [|apply IH].
  unfold weigh. now rewrite length_map.
Qed.

Lemma length_sample_momentum (vs : list (list Q)) (ms : option (list Q)) :
  Forall (fun v => length v = 3) vs -> length (sample_momentum vs ms) = 3.
Proof.
  intros H. destruct ms as [ms|]; cbn.
  - now apply length_vsum, Forall_length_weigh.
  - now apply length_vsum.
Qed.

Lemma zip_with_replicate_r_map {A B C} (f : A -> B -> C) (v : list A) k (m : B) :
  length v = k -> zip_with f v (replicate k m) = map (fun x => f x m) v.
Proof.
  revert k. induction v as [|x v IH]; intros [|k] H; try discriminate; cbn.
  - reflexivity.
  - rewrite IH; [reflexivity | now injection H].
Qed.

Lemma zip_with_replicate_None {A B C} (f : A -> option B -> C) (l : list A) k :
  length l = k -> zip_with f l (replicate k None) = map (fun x => f x None) l.
Proof. apply zip_with_replicate_r_map. Qed.

Lemma concat_replicate_singleton {A} k (m : A) :
  concat (replicate k [m]) = replicate k m.
Proof. induction k as [|k IH]; cbn; [|rewrite IH]; reflexivity. Qed.

Lemma length_concat_replicate {A} k (l : list A) :
  length (concat (map (replicate k) l)) = length l * k.
Proof.
  induction l as [|x l IH]; cbn; [reflexivity|].
  rewrite length_app, length_replicate, IH. reflexivity.
Qed.

Lemma concat_map_blocks {A B} (f : list A -> list B) (g : A -> list B)
  (L : list (list A)) :
  Forall (fun c => f c = concat (map g c)) L ->
  concat (map f L) = concat (map g (concat L)).
Proof.
  induction 1 as [|c L Hc _ IH]; cbn; [reflexivity|].
  now rewrite map_app, concat_app, Hc, IH.
Qed.

(** A trailing axis of size 1 laid out on size [k]: each entry [k] times. *)
Lemma expand_trailing (s : list nat) (k : nat) (d : list Q) :
  length d = numel_of s ->
  expand (s ++ [1]) (s ++ [k]) d = concat (map (replicate k) d).
Proof.
  revert d. induction s as [|a s IH]; intros d H.
  - destruct d as [|m [|? ?]]; try discriminate. cbn.
    destruct k as [|[|k]]; cbn; try reflexivity.
    rewrite concat_replicate_singleton, app_nil_r. reflexivity.
  - change (numel_of (a :: s)) with (a * numel_of s) in H.
    cbn [app expand]. rewrite Nat.eqb_refl.
    replace (numel_of (s ++ [1])) with (numel_of s)
      by (rewrite numel_of_app; cbn; lia).
    rewrite (concat_map_blocks _ (replicate k)).
    + now rewrite concat_chunks.
    + eapply Forall_impl; [apply Forall_length_chunks; exact H|].
      intros c Hc. now apply IH.
Qed.

Lemma zip_with_weigh_rows (rows : list (list Q)) (ms : list Q) :
  Forall (fun v => length v = 3) rows ->
  zip_with (zip_with Qmult) rows (map (replicate 3) ms)
  = zip_with weigh rows ms.
Proof.
  intros H. revert ms. induction H as [|v rows Hv _ IH]; intros [|m ms]; cbn;
    try reflexivity.
  rewrite <- IH. f_equal.
  now apply (zip_with_replicate_r_map Qmult v 3 m).
Qed.

(** One sample with its masses: the sum over the particle axis of the
    weighted velocities. *)
Lemma sum_axis_weighted_sample (n : nat) (c mc : list Q) :
  length c = n * 3 -> length mc = n ->
  sum_axis 0 [n; 3] (zip_with Qmult c (expand [n; 1] [n; 3] mc))
  = sample_momentum (chunks n 3 c) (Some mc).
Proof.
  intros Hc Hm.
  change (expand [n; 1] [n; 3] mc) with (expand ([n] ++ [1]) ([n] ++ [3]) mc).
  rewrite (expand_trailing [n] 3 mc) by (cbn; lia).
  change (sum_axis 0 [n; 3] ?d) with (vsum (chunks n 3 d)).
  rewrite chunks_zip_with.
  rewrite <- Hm at 2. rewrite <- (length_map (replicate 3) mc).
  rewrite chunks_concat.
  - cbn [sample_momentum]. f_equal. apply zip_with_weigh_rows.
    now apply Forall_length_chunks.
  - clear. induction mc; cbn; constructor; auto.
Qed.

Lemma view_flat_rows (vel : Tensor) (b n : nat) :
  shape vel = [b * n; 3] ->
  view vel [Z.of_nat b; Z.of_nat n; 3%Z] = Ok (regroup b n vel).
Proof.
  intros Hs. rewrite view_grouped by lia.
  rewrite !Nat2Z.id, (numel_rows _ _ Hs).
  replace (b * (n * 3) =? b * n * 3) with true
    by (symmetry; apply Nat.eqb_eq; lia).
  reflexivity.
Qed.

Lemma length_expand_particles (n : nat) (mc : list Q) :
  length mc = n -> length (expand [n; 1] [n; 3] mc) = n * 3.
Proof.
  intros H.
  change (expand [n; 1] [n; 3] mc) with (expand ([n] ++ [1]) ([n] ++ [3]) mc).
  rewrite (expand_trailing [n] 3 mc) by (cbn; lia).
  now rewrite length_concat_replicate, H.
Qed.

Lemma weighted_samples (n : nat) (Cs Ms : list (list Q)) :
  Forall (fun c => length c = n * 3) Cs ->
  Forall (fun mc => length mc = n) Ms ->
  map (sum_axis 0 [n; 3])
      (zip_with (zip_with Qmult) Cs (map (expand [n; 1] [n; 3]) Ms))
  = zip_with sample_momentum (map (chunks n 3) Cs) (map Some Ms).
Proof.
  intros HC. revert Ms. induction HC as [|c Cs Hc _ IH]; intros Ms HM.
  - reflexivity.
  - destruct HM as [|mc Ms Hm HM]; [reflexivity|]. cbn [map zip_with].
    rewrite IH by exact HM. f_equal.
    now apply sum_axis_weighted_sample.
Qed.

Lemma Forall_length_expand_particles (n : nat) (Ms : list (list Q)) :
  Forall (fun mc => length mc = n) Ms ->
  Forall (fun c => length c = n * 3) (map (expand [n; 1] [n; 3]) Ms).
Proof.
  induction 1 as [|mc Ms Hmc _ IH]; cbn [map]; constructor;
    [now apply length_expand_particles | exact IH].
Qed.

(** How the masses lie against the grouped velocities. *)
Lemma masses_layout (b n : nat) (m : Tensor) :
  shape m = [b; n] \/ shape m = [n] -> wf m ->
  broadcast_shapes [b; n; 3] (shape m ++ [1]) = Some [b; n; 3] /\
  expand (pad_shape (Nat.max 3 (length (shape m ++ [1]))) (shape m ++ [1]))
         [b; n; 3] (data m)
  = concat (map (expand [n; 1] [n; 3]) (mass_blocks b n m)) /\
  length (mass_blocks b n m) = b /\
  Forall (fun mc => length mc = n) (mass_blocks b n m).
Proof.
  intros [Hs | Hs] Hwf; unfold wf, numel in Hwf; rewrite Hs in Hwf;
    unfold mass_blocks, dim; rewrite Hs; cbn [length Nat.eqb app Nat.max].
  - change (numel_of [b; n]) with (b * (n * 1)) in Hwf.
    assert (Hlm : length (data m) = b * n) by lia.
    split; [apply (broadcast_shapes_trailing_1 [b; n] 3)|].
    change (pad_shape 3 [b; n; 1]) with [b; n; 1].
    split; [|split].
    + cbn [expand]. rewrite Nat.eqb_refl.
      change (numel_of [n; 1]) with (n * (1 * 1)).
      replace (n * (1 * 1)) with n by lia. reflexivity.
    + apply length_chunks.
    + now apply Forall_length_chunks.
  - change (numel_of [n]) with (n * 1) in Hwf.
    assert (Hlm : length (data m) = n) by lia.
    split.
    { unfold broadcast_shapes. cbn [length Nat.max].
      change (pad_shape 3 [b; n; 3]) with [b; n; 3].
      change (pad_shape 3 [n; 1]) with [1; n; 1].
      cbn [bshape]. now rewrite bdim_1_r, bdim_same. }
    change (pad_shape 3 [n; 1]) with [1; n; 1].
    split; [|split].
    + cbn [expand].
      change (numel_of [n; 1]) with (n * (1 * 1)).
      replace (n * (1 * 1)) with n by lia.
      cbn [chunks map concat]. rewrite take_ge by lia.
      rewrite map_replicate, app_nil_r.
      destruct (1 =? b) eqn:E; [|reflexivity].
      apply Nat.eqb_eq in E as <-. cbn. now rewrite app_nil_r.
    + apply length_replicate.
    + apply Forall_replicate. exact Hlm.
Qed.

(** The batched momentum of a flat array, read sample by sample. *)
Lemma momentum_batched_samples
  (b n : nat) (vel : Tensor) (masses : option Tensor) :
  shape vel = [b * n; 3] -> wf vel -> masses_per_particle b n masses ->
  compute_linear_momentum_batched vel (Z.of_nat n) (Z.of_nat b) masses
  = Ok (mkTensor [b; 3]
          (concat (zip_with sample_momentum (samples b n vel)
                            (sample_masses b n masses)))).
Proof.
  intros Hs Hwf Hm. unfold compute_linear_momentum_batched.
  rewrite (view_flat_rows _ _ _ Hs). cbn [rbind].
  unfold wf, numel in Hwf. rewrite Hs in Hwf.
  change (numel_of [b * n; 3]) with (b * n * (3 * 1)) in Hwf.
  assert (Hlen : length (data vel) = b * (n * 3)) by lia.
  unfold compute_linear_momentum, regroup, dim. cbn [shape length Nat.eqb].
  destruct masses as [m|]; cbn [masses_per_particle] in Hm.
  - destruct Hm as [Hsm Hwm].
    destruct (masses_layout b n m Hsm Hwm) as (Hbs & Hex & HlM & HM).
    unfold tmul, binop, unsqueeze_last, dim. cbn [shape data length].
    rewrite Hbs, Hex. cbn [rbind].
    replace (pad_shape (Nat.max 3 (length (shape m ++ [1]))) [b; n; 3])
      with [b; n; 3].
    2:{ unfold pad_shape. cbn [length].
        replace (Nat.max 3 (length (shape m ++ [1])) - 3) with 0; [reflexivity|].
        destruct Hsm as [-> | ->]; reflexivity. }
    rewrite expand_id by (cbn; lia).
    unfold sum_dim, dim. cbn [shape data length]. rewrite norm_dim_1 by lia.
    cbn [rbind]. f_equal. f_equal.
    change (sum_axis 1 [b; n; 3] ?d)
      with (concat (map (sum_axis 0 [n; 3]) (chunks b (n * 3) d))).
    rewrite chunks_zip_with.
    assert (HC := Forall_length_chunks b (n * 3) (data vel) Hlen).
    rewrite (chunks_concat_eq _ b (n * 3)).
    + rewrite weighted_samples by assumption. reflexivity.
    + now rewrite length_map.
    + now apply Forall_length_expand_particles.
  - unfold sum_dim, dim. cbn [shape data length]. rewrite norm_dim_1 by lia.
    cbn [rbind]. f_equal. f_equal.
    change (sum_axis 1 [b; n; 3] ?d)
      with (concat (map (sum_axis 0 [n; 3]) (chunks b (n * 3) d))).
    unfold samples, sample_masses.
    rewrite zip_with_replicate_None
      by (now rewrite length_map, length_chunks).
    rewrite map_map. reflexivity.
Qed.

Lemma sample_momenta_regular
  (b n : nat) (vel : Tensor) (masses : option Tensor) :
  shape vel = [b * n; 3] -> wf vel -> masses_per_particle b n masses ->
  let Ps := zip_with sample_momentum (samples b n vel)
                     (sample_masses b n masses) in
  length Ps = b /\ Forall (fun P => length P = 3) Ps.
Proof.
  intros Hs Hwf Hm Ps. subst Ps.
  unfold wf, numel in Hwf. rewrite Hs in Hwf.
  change (numel_of [b * n; 3]) with (b * n * (3 * 1)) in Hwf.
  assert (Hlen : length (data vel) = b * (n * 3)) by lia.
  assert (HC := Forall_length_chunks b (n * 3) (data vel) Hlen).
  assert (Hrows : Forall (Forall (fun v => length v = 3)) (samples b n vel)).
  { unfold samples. clear -HC.
    induction HC as [|c Cs Hc _ IH]; cbn; constructor; [|exact IH].
    now apply Forall_length_chunks. }
  assert (Hls : length (samples b n vel) = b).
  { unfold samples. now rewrite length_map, length_chunks. }
  assert (Hlm : length (sample_masses b n masses) = b).
  { unfold sample_masses. destruct masses as [m|].
    - rewrite length_map. destruct Hm as [Hsm Hwm].
      apply (masses_layout b n m Hsm Hwm).
    - apply length_replicate. }
  split.
  - rewrite length_zip_with_l_eq; [exact Hls | congruence].
  - clear -Hrows. revert Hrows. generalize (samples b n vel) as S.
    generalize (sample_masses b n masses) as M.
    intros M S HS. revert M. induction HS as [|vs S Hvs _ IH];
      intros [|ms M]; cbn; constructor; [|apply IH].
    now apply length_sample_momentum.
Qed.

(** ** From the momenta to the loss *)

Lemma length_concat_uniform {A} (k : nat) (X : list (list A)) :
  Forall (fun c => length c = k) X -> length (concat X) = length X * k.
Proof.
  induction 1 as [|c X Hc _ IH]; cbn; [reflexivity|].
  rewrite length_app, Hc, IH. reflexivity.
Qed.

Lemma sum_axis_components (v : list Q) :
  length v = 3 -> sum_axis 0 [3] v = [qsum v].
Proof.
  destruct v as [|x [|y [|z [|? ?]]]]; try discriminate. reflexivity.
Qed.

Lemma sum_last_axis (b : nat) (X : list (list Q)) :
  length X = b -> Forall (fun c => length c = 3) X ->
  sum_axis 1 [b; 3] (concat X) = map qsum X.
Proof.
  intros Hb HX.
  change (sum_axis 1 [b; 3] ?d)
    with (concat (map (sum_axis 0 [3]) (chunks b 3 d))).
  rewrite (chunks_concat_eq _ b 3) by assumption.
  clear Hb. induction HX as [|c X Hc _ IH]; cbn [map concat]; [reflexivity|].
  rewrite IH, sum_axis_components by exact Hc. reflexivity.
Qed.

Lemma Forall_length_differences (Pps Pis : list (list Q)) :
  Forall (fun c => length c = 3) Pps -> Forall (fun c => length c = 3) Pis ->
  Forall (fun c => length c = 3) (zip_with (zip_with Qminus) Pps Pis).
Proof.
  intros HP. revert Pis. induction HP as [|p Pps Hp _ IH]; intros Pis HI;
    [constructor|].
  destruct HI as [|q Pis Hq HI]; cbn; constructor; [|now apply IH].
  rewrite length_zip_with, Hp, Hq. reflexivity.
Qed.

Lemma Forall_length_squares (X : list (list Q)) :
  Forall (fun c => length c = 3) X ->
  Forall (fun c => length c = 3) (map (map (fun x => (x ^ 2)%Q)) X).
Proof.
  induction 1 as [|c X Hc _ IH]; cbn [map]; constructor; [|exact IH].
  now rewrite length_map.
Qed.

Lemma per_sample_losses (Pis Pps : list (list Q)) :
  zip_with Qdiv
    (map qsum (map (map (fun x => (x ^ 2)%Q)) (zip_with (zip_with Qminus) Pps Pis)))
    (map (fun x => Qmax x eps) (map qsum (map (map (fun x => (x ^ 2)%Q)) Pis)))
  = zip_with sample_loss Pis Pps.
Proof.
  revert Pps. induction Pis as [|Pi Pis IH]; intros [|Pp Pps]; cbn [zip_with map];
    try reflexivity.
  rewrite IH. reflexivity.
Qed.

Lemma loss_of_momenta (b : nat) (Pis Pps : list (list Q)) :
  length Pis = b -> length Pps = b ->
  Forall (fun c => length c = 3) Pis -> Forall (fun c => length c = 3) Pps ->
  (let P_init := mkTensor [b; 3] (concat Pis) in
   let P_pred := mkTensor [b; 3] (concat Pps) in
   let? diff := tsub P_pred P_init in
   let? loss := sum_dim (pow2 diff) (-1) in
   let? nrm := sum_dim (pow2 P_init) (-1) in
   let P_init_norm := clamp_min nrm eps in
   let? loss := tdiv loss P_init_norm in
   Ok (mean loss))
  = Ok (average (zip_with sample_loss Pis Pps)).
Proof.
  intros HbI HbP HI HP. cbv zeta.
  assert (HlI : length (concat Pis) = numel_of [b; 3]).
  { rewrite (length_concat_uniform 3) by exact HI. rewrite HbI. cbn. lia. }
  assert (HlP : length (concat Pps) = numel_of [b; 3]).
  { rewrite (length_concat_uniform 3) by exact HP. rewrite HbP. cbn. lia. }
  unfold tsub, binop, dim. cbn [shape data].
  rewrite broadcast_shapes_same. cbn [length Nat.max].
  change (pad_shape 2 [b; 3]) with [b; 3].
  rewrite !expand_id by assumption. cbn [rbind].
  rewrite <- (concat_zip_with Qminus 3) by (assumption || congruence).
  unfold sum_dim, pow2, tmap, dim. cbn [shape data length].
  rewrite (norm_dim_last 2) by lia. cbn [rbind Nat.sub].
  change (delete 1 [b; 3]) with [b].
  rewrite <- !concat_map_map.
  assert (HD := Forall_length_differences Pps Pis HP HI).
  rewrite !sum_last_axis;
    try (apply Forall_length_squares; assumption);
    try (rewrite !length_map; try rewrite length_zip_with_l_eq; congruence).
  unfold clamp_min, tmap, tdiv, binop, dim. cbn [shape data].
  rewrite broadcast_shapes_same. cbn [length Nat.max].
  change (pad_shape 1 [b]) with [b].
  rewrite !expand_id.
  2:{ rewrite !length_map, HbI. cbn. lia. }
  2:{ rewrite !length_map, length_zip_with_l_eq by congruence.
      rewrite HbP. cbn. lia. }
  cbn [rbind]. rewrite per_sample_losses.
  unfold mean, average, numel. cbn [shape data].
  rewrite length_zip_with_l_eq by congruence. rewrite HbI.
  change (numel_of [b]) with (b * 1). rewrite Nat.mul_1_r. reflexivity.
Qed.

Lemma momentum_conservation_loss_samples
  (b n : nat) (vel_init vel_pred : Tensor) (masses : option Tensor) :
  shape vel_init = [b * n; 3] -> wf vel_init ->
  shape vel_pred = [b * n; 3] -> wf vel_pred ->
  masses_per_particle b n masses ->
  momentum_conservation_loss vel_init vel_pred (Z.of_nat n) (Z.of_nat b) masses
  = Ok (spec_momentum_loss b n vel_init vel_pred masses).
Proof.
  intros Hsi Hwi Hsp Hwp Hm. unfold momentum_conservation_loss.
  rewrite !momentum_batched_samples by assumption. cbn [rbind].
  destruct (sample_momenta_regular b n vel_init masses Hsi Hwi Hm) as [HbI HI].
  destruct (sample_momenta_regular b n vel_pred masses Hsp Hwp Hm) as [HbP HP].
  apply (loss_of_momenta b); assumption.
Qed.

(** C1 (as amended).  On flat arrays of shape (b*n, 3), without masses, with
    one mass per particle in shape (b, n), or with masses of shape (n) shared
    by the samples, the call returns the mean over the batch of the squared
    deviation of the per-sample momentum over the three components, each
    divided by [max(sum(P_init^2), 1e-6)]. *)
Theorem momentum_loss_is_normalized_mean
  (b n : nat) (vel_init vel_pred : Tensor) (masses : option Tensor) :
  shape vel_init = [b * n; 3] -> wf vel_init ->
  shape vel_pred = [b * n; 3] -> wf vel_pred ->
  masses_per_particle b n masses ->
  momentum_conservation_loss vel_init vel_pred (Z.of_nat n) (Z.of_nat b) masses
  = Ok (average
          (zip_with sample_loss
             (zip_with sample_momentum (samples b n vel_init)
                       (sample_masses b n masses))
             (zip_with sample_momentum (samples b n vel_pred)
                       (sample_masses b n masses)))).
Proof.
  intros Hsi Hwi Hsp Hwp Hm.
  now rewrite momentum_conservation_loss_samples.
Qed.

Lemma momentum_loss_is_normalized_mean_witness :
  momentum_conservation_loss vel_two_samples vel_two_samples_pushed
    (Z.of_nat 3) (Z.of_nat 2) None
  = Ok (average
          (zip_with sample_loss
             (zip_with sample_momentum (samples 2 3 vel_two_samples)
                       (sample_masses 2 3 None))
             (zip_with sample_momentum (samples 2 3 vel_two_samples_pushed)
                       (sample_masses 2 3 None)))) /\
  momentum_conservation_loss vel_two_samples vel_two_samples_pushed
    (Z.of_nat 3) (Z.of_nat 2) (Some masses_two_samples)
  = Ok (average
          (zip_with sample_loss
             (zip_with sample_momentum (samples 2 3 vel_two_samples)
                       (sample_masses 2 3 (Some masses_two_samples)))
             (zip_with sample_momentum (samples 2 3 vel_two_samples_pushed)
                       (sample_masses 2 3 (Some masses_two_samples))))).
Proof.
  split.
  - apply (momentum_loss_is_normalized_mean 2 3 vel_two_samples
             vel_two_samples_pushed None); try reflexivity.
  - apply (momentum_loss_is_normalized_mean 2 3 vel_two_samples
             vel_two_samples_pushed (Some masses_two_samples)); try reflexivity.
    split; [left|]; reflexivity.
Defined.

Lemma momentum_conservation_loss_is_mean
  (vel_init vel_pred : Tensor) (n_nodes batch_size : Z)
  (masses : option Tensor) :
  momentum_conservation_loss vel_init vel_pred n_nodes batch_size masses
  = let? loss := per_sample_loss vel_init vel_pred n_nodes batch_size masses in
    Ok (mean loss).
Proof.
  unfold momentum_conservation_loss, per_sample_loss.
  destruct (compute_linear_momentum_batched vel_init _ _ _) as [P_init|];
    [cbn [rbind] | reflexivity].
  destruct (compute_linear_momentum_batched vel_pred _ _ _) as [P_pred|];
    [cbn [rbind] | reflexivity].
  destruct (tsub P_pred P_init) as [diff|]; [cbn [rbind] | reflexivity].
  destruct (sum_dim (pow2 diff) (-1)) as [loss|]; [cbn [rbind] | reflexivity].
  destruct (sum_dim (pow2 P_init) (-1)) as [nrm|]; reflexivity.
Qed.

Lemma conserved_per_sample_loss_zero
  (vel : Tensor) (n_nodes batch_size : Z) (masses : option Tensor)
  (loss : Tensor) :
  per_sample_loss vel vel n_nodes batch_size masses = Ok loss ->
  all_zero (data loss).
Proof.
  unfold per_sample_loss. intros H.
  apply rbind_Ok in H as (P & HP & H). rewrite HP in H. cbn [rbind] in H.
  apply rbind_Ok in H as (diff & Hdiff & H).
  apply rbind_Ok in H as (l & Hl & H).
  apply rbind_Ok in H as (nrm & _ & Hl').
  unfold tsub, binop in Hdiff.
  destruct (broadcast_shapes _ _) as [s|]; [|discriminate].
  injection Hdiff as <-.
  unfold sum_dim in Hl. apply rbind_Ok in Hl as (k & _ & Hl).
  injection Hl as <-.
  unfold tdiv, binop in Hl'.
  destruct (broadcast_shapes _ _) as [s'|]; [|discriminate].
  injection Hl' as <-. cbn [data pow2 tmap shape].
  apply all_zero_div, expand_Forall, all_zero_sum_axis, all_zero_pow2,
    all_zero_sub_self.
Qed.

(** C8 (as amended).  In exact arithmetic, that is as long as no momentum
    sum, square or quotient leaves the finite floats: with [vel_pred] equal
    to [vel_init], a call that returns gives nan exactly when the per-sample
    loss has no entry, and 0 otherwise.  On a flat array of shape (b*n, 3),
    without masses or with masses of shape (b, n) or (n), the call returns
    nan for [b = 0] and 0 for [b >= 1]. *)
Theorem conserved_momentum_zero_loss (vel : Tensor) (masses : option Tensor) :
  (forall (n_nodes batch_size : Z) (r : fval),
     momentum_conservation_loss vel vel n_nodes batch_size masses = Ok r ->
     exists loss,
       per_sample_loss vel vel n_nodes batch_size masses = Ok loss /\
       (r = NaN <-> numel loss = 0) /\
       (numel loss <> 0 -> exists q, r = Fin q /\ (q == 0)%Q)) /\
  (forall b n : nat,
     shape vel = [b * n; 3] -> wf vel ->
     masses_per_particle b n masses ->
     (b = 0 ->
      momentum_conservation_loss vel vel (Z.of_nat n) (Z.of_nat b) masses
      = Ok NaN) /\
     (1 <= b ->
      exists q,
        momentum_conservation_loss vel vel (Z.of_nat n) (Z.of_nat b) masses
        = Ok (Fin q) /\ (q == 0)%Q)).
Proof.
  assert (Hgen : forall (n_nodes batch_size : Z) (r : fval),
     momentum_conservation_loss vel vel n_nodes batch_size masses = Ok r ->
     exists loss,
       per_sample_loss vel vel n_nodes batch_size masses = Ok loss /\
       (r = NaN <-> numel loss = 0) /\
       (numel loss <> 0 -> exists q, r = Fin q /\ (q == 0)%Q)).
  { intros n_nodes batch_size r H.
    rewrite momentum_conservation_loss_is_mean in H.
    apply rbind_Ok in H as (loss & Hloss & [= <-]).
    exists loss. split; [exact Hloss|].
    apply conserved_per_sample_loss_zero in Hloss.
    destruct (mean_all_zero loss Hloss) as [[H0 Hn] | [H0 (q & Hq & Hq0)]].
    - rewrite Hn. split; [tauto | intros; contradiction].
    - rewrite Hq. split; [split; [discriminate | intros; contradiction]|].
      intros _. eauto. }
  split; [exact Hgen|].
  intros b n Hs Hwf Hm.
  assert (Hrun := momentum_conservation_loss_samples b n vel vel masses
                    Hs Hwf Hs Hwf Hm).
  assert (Hlen : length (zip_with sample_loss
                   (zip_with sample_momentum (samples b n vel)
                             (sample_masses b n masses))
                   (zip_with sample_momentum (samples b n vel)
                             (sample_masses b n masses))) = b).
  { destruct (sample_momenta_regular b n vel masses Hs Hwf Hm) as [HbP _].
    rewrite length_zip_with_l_eq by reflexivity. exact HbP. }
  split.
  - intros ->. rewrite Hrun. unfold spec_momentum_loss, average.
    now rewrite Hlen.
  - intros Hb.
    destruct (Hgen _ _ _ Hrun) as (loss & _ & Hnan & Hnum).
    destruct (Nat.eq_dec (numel loss) 0) as [H0 | H0].
    + exfalso. apply Hnan in H0.
      unfold spec_momentum_loss, average in H0. rewrite Hlen in H0.
      destruct b; [lia | discriminate].
    + destruct (Hnum H0) as (q & Hq & Hq0).
      exists q. rewrite Hrun, Hq. auto.
Qed.

Lemma conserved_momentum_zero_loss_witness :
  momentum_conservation_loss vel_no_rows vel_no_rows (Z.of_nat 3) (Z.of_nat 0)
    None = Ok NaN /\
  exists q,
    momentum_conservation_loss vel_two_samples vel_two_samples
      (Z.of_nat 3) (Z.of_nat 2) None
    = Ok (Fin q) /\ (q == 0)%Q.
Proof.
  split.
  - apply (proj2 (conserved_momentum_zero_loss vel_no_rows None) 0 3);
      try reflexivity.
  - apply (proj2 (conserved_momentum_zero_loss vel_two_samples None) 2 3);
      try reflexivity. lia.
Defined.

(** C8 (as stated) fails: on a batch without samples the result is nan, and
    with a row count that does not match the call raises instead of
    returning. *)
Lemma conserved_momentum_without_zero_loss :
  momentum_conservation_loss vel_no_rows vel_no_rows 3 0 None = Ok NaN /\
  momentum_conservation_loss vel_two_samples vel_two_samples 3 3 None
  = Err ShapeMismatch.
Proof. split; vm_compute; reflexivity. Qed.

(** C1 (as stated) fails for masses given one per particle as a flat array.
    With two samples of two particles the velocities reshape and the call
    raises on the broadcast of the masses.  With three samples of one
    particle the call returns, but every sample is weighted by the sum of all
    the masses: the result is 36000000/3, where the mass-weighted momenta of
    the samples give 1000000/3. *)
Lemma momentum_loss_with_flat_masses :
  (shape vel_four_rows = [2 * 2; 3] /\
   view vel_four_rows [2%Z; 2%Z; 3%Z] = Ok (regroup 2 2 vel_four_rows) /\
   momentum_conservation_loss vel_four_rows vel_four_rows 2 2
     (Some masses_flat_four) = Err ShapeMismatch) /\
  (shape vel_three_at_rest = [3 * 1; 3] /\
   shape vel_three_first_moving = [3 * 1; 3] /\
   momentum_conservation_loss vel_three_at_rest vel_three_first_moving 1 3
     (Some masses_flat_three) = Ok (Fin (36000000 # 3)) /\
   average
     (zip_with sample_loss
        (zip_with sample_momentum (samples 3 1 vel_three_at_rest)
                  [Some [1]; Some [2]; Some [3]]%Q)
        (zip_with sample_momentum (samples 3 1 vel_three_first_moving)
                  [Some [1]; Some [2]; Some [3]]%Q))
   = Fin (1000000 # 3) /\
   ~ feq (Fin (36000000 # 3)) (Fin (1000000 # 3))).
Proof.
  split.
  - split; [reflexivity|]. split; vm_compute; reflexivity.
  - split; [reflexivity|]. split; [reflexivity|].
    split; [vm_compute; reflexivity|]. split; [vm_compute; reflexivity|].
    vm_compute. discriminate.
Qed.

(** * Further properties of the module *)

(** ** Which errors can come out *)

Lemma norm_dim_0 (r : nat) : norm_dim r 0 = Ok 0.
Proof.
  unfold norm_dim.
  assert (Hc : ((- Z.of_nat (Nat.max r 1) <=? 0)
                && (0 <? Z.of_nat (Nat.max r 1)))%Z = true).
  { apply andb_true_iff. split; [apply Z.leb_le | apply Z.ltb_lt]; lia. }
  rewrite Hc. reflexivity.
Qed.

Lemma sum_dim_Ok_dim (t p : Tensor) (k : nat) :
  k < dim t -> sum_dim t (Z.of_nat k) = Ok p -> dim p = dim t - 1.
Proof.
  intros Hk. unfold sum_dim, norm_dim.
  replace (Nat.max (dim t) 1) with (dim t) by lia.
  assert (Hc : ((- Z.of_nat (dim t) <=? Z.of_nat k)
                && (Z.of_nat k <? Z.of_nat (dim t)))%Z = true).
  { apply andb_true_iff. split; [apply Z.leb_le | apply Z.ltb_lt]; lia. }
  rewrite Hc, Z.mod_small, Nat2Z.id by lia. cbn [rbind].
  intros [= <-]. unfold dim at 1. cbn [shape].
  apply length_delete. apply lookup_lt_is_Some_2. exact Hk.
Qed.

Lemma compute_linear_momentum_Err
  (vel : Tensor) (masses : option Tensor) (e : ErrorKind) :
  compute_linear_momentum vel masses = Err e <->
  e = ShapeMismatch /\
  exists m, masses = Some m /\
            broadcast_shapes (shape vel) (shape m ++ [1]) = None.
Proof.
  destruct (Nat.eq_dec (dim vel) 3) as [Hd | Hd].
  - now apply compute_linear_momentum_3axis_Err.
  - unfold compute_linear_momentum.
    replace (dim vel =? 3) with false by (symmetry; now apply Nat.eqb_neq).
    destruct masses as [m|].
    + destruct (tmul vel (unsqueeze_last m)) as [p|e'] eqn:E; cbn [rbind].
      * unfold sum_dim. rewrite norm_dim_0. cbn [rbind].
        split; [discriminate|].
        intros (_ & m' & [= <-] & Hb).
        unfold tmul, binop in E. cbn [unsqueeze_last shape] in E.
        rewrite Hb in E. discriminate.
      * apply binop_Err in E as [-> Hb]. split.
        -- intros [= <-]. split; [reflexivity|]. exists m. auto.
        -- intros [-> _]. reflexivity.
    + unfold sum_dim. rewrite norm_dim_0. cbn [rbind].
      split; [discriminate|]. intros (_ & m & Hm & _). discriminate.
Qed.

(** X1.  [compute_linear_momentum] fails only on the broadcast of the masses,
    with [ShapeMismatch], whatever the number of axes of the velocities; in
    particular it never fails without masses, and the reduction axis always
    exists. *)
Theorem compute_linear_momentum_failure
  (vel : Tensor) (masses : option Tensor) (e : ErrorKind) :
  compute_linear_momentum vel masses = Err e <->
  e = ShapeMismatch /\
  exists m, masses = Some m /\
            broadcast_shapes (shape vel) (shape m ++ [1]) = None.
Proof. apply compute_linear_momentum_Err. Qed.

Lemma compute_linear_momentum_failure_witness :
  ShapeMismatch = ShapeMismatch /\
  exists m, Some masses_flat_four = Some m /\
            broadcast_shapes (shape (regroup 2 2 vel_four_rows))
                             (shape m ++ [1]) = None.
Proof.
  apply (proj1 (compute_linear_momentum_failure (regroup 2 2 vel_four_rows)
                  (Some masses_flat_four) ShapeMismatch)).
  vm_compute. reflexivity.
Defined.

Lemma infer_size_Err (sizes : list Z) (n : nat) (e : ErrorKind) :
  infer_size sizes n = Err e -> e = ShapeMismatch.
Proof.
  unfold infer_size.
  destruct (existsb _ sizes); [now intros [= <-]|].
  destruct (length (List.filter is_infer sizes)) as [|[|k]].
  - destruct (_ =? _); [discriminate | now intros [= <-]].
  - destruct (_ && _); [discriminate | now intros [= <-]].
  - now intros [= <-].
Qed.

Lemma infer_size_Ok_length (sizes : list Z) (n : nat) (s : list nat) :
  infer_size sizes n = Ok s -> length s = length sizes.
Proof.
  unfold infer_size.
  destruct (existsb _ sizes); [discriminate|].
  destruct (length (List.filter is_infer sizes)) as [|[|k]].
  - destruct (_ =? _); [|discriminate]. intros [= <-]. apply length_map.
  - destruct (_ && _); [|discriminate]. intros [= <-]. apply length_map.
  - discriminate.
Qed.

Lemma batched_momentum_Err
  (vel : Tensor) (n_nodes batch_size : Z) (masses : option Tensor)
  (e : ErrorKind) :
  compute_linear_momentum_batched vel n_nodes batch_size masses = Err e ->
  e = ShapeMismatch.
Proof.
  unfold compute_linear_momentum_batched, view. intros H.
  apply rbind_Err in H as [H | (t & _ & H)].
  - apply rbind_Err in H as [H | (s & _ & H)]; [|discriminate].
    now apply infer_size_Err in H.
  - now apply compute_linear_momentum_Err in H as [-> _].
Qed.

(** The batched momentum has at least two axes. *)
Lemma batched_momentum_Ok_dim
  (vel : Tensor) (n_nodes batch_size : Z) (masses : option Tensor)
  (P : Tensor) :
  compute_linear_momentum_batched vel n_nodes batch_size masses = Ok P ->
  2 <= dim P.
Proof.
  unfold compute_linear_momentum_batched, view. intros H.
  apply rbind_Ok in H as (t & Ht & H).
  apply rbind_Ok in Ht as (s & Hs & [= <-]).
  apply infer_size_Ok_length in Hs. cbn [length] in Hs.
  unfold compute_linear_momentum, dim in H. cbn [shape] in H.
  rewrite Hs in H. cbn [Nat.eqb] in H.
  destruct masses as [m|].
  - apply rbind_Ok in H as (p & Hp & H).
    apply binop_Ok_dim in Hp as Hd. unfold dim at 2 in Hd. cbn [shape] in Hd.
    apply (sum_dim_Ok_dim p P 1) in H; lia.
  - apply (sum_dim_Ok_dim _ P 1) in H; unfold dim in *; cbn [shape] in *; lia.
Qed.

Lemma sum_dim_last_Ok (t : Tensor) :
  1 <= dim t -> exists p, sum_dim t (-1) = Ok p.
Proof.
  intros H. unfold sum_dim. rewrite norm_dim_last by exact H.
  cbn [rbind]. eauto.
Qed.

Lemma momentum_conservation_loss_Err
  (vel_init vel_pred : Tensor) (n_nodes batch_size : Z)
  (masses : option Tensor) (e : ErrorKind) :
  momentum_conservation_loss vel_init vel_pred n_nodes batch_size masses
  = Err e ->
  e = ShapeMismatch.
Proof.
  unfold momentum_conservation_loss. intros H.
  apply rbind_Err in H as [H | (P_init & HPi & H)];
    [now apply batched_momentum_Err in H|].
  apply rbind_Err in H as [H | (P_pred & HPp & H)];
    [now apply batched_momentum_Err in H|].
  apply batched_momentum_Ok_dim in HPi. apply batched_momentum_Ok_dim in HPp.
  apply rbind_Err in H as [H | (diff & Hdiff & H)];
    [now apply binop_Err in H as [-> _]|].
  apply binop_Ok_dim in Hdiff.
  destruct (sum_dim_last_Ok (pow2 diff)) as [l Hl].
  { unfold pow2, tmap, dim in *. cbn [shape]. lia. }
  rewrite Hl in H. cbn [rbind] in H.
  destruct (sum_dim_last_Ok (pow2 P_init)) as [nrm Hn].
  { unfold pow2, tmap, dim in *. cbn [shape]. lia. }
  rewrite Hn in H. cbn [rbind] in H.
  apply rbind_Err in H as [H | (l' & _ & H)]; [|discriminate].
  now apply binop_Err in H as [-> _].
Qed.

(** X2.  [momentum_conservation_loss] raises nothing but [ShapeMismatch]:
    the reductions over the last axis always find their axis. *)
Theorem momentum_conservation_loss_only_shape_errors
  (vel_init vel_pred : Tensor) (n_nodes batch_size : Z)
  (masses : option Tensor) (e : ErrorKind) :
  momentum_conservation_loss vel_init vel_pred n_nodes batch_size masses
  = Err e ->
  e = ShapeMismatch.
Proof. apply momentum_conservation_loss_Err. Qed.

Lemma momentum_conservation_loss_only_shape_errors_witness :
  momentum_conservation_loss vel_two_samples vel_two_samples 3 3 None
  = Err ShapeMismatch /\ ShapeMismatch = ShapeMismatch.
Proof.
  assert (H : momentum_conservation_loss vel_two_samples vel_two_samples 3 3
                None = Err ShapeMismatch) by (vm_compute; reflexivity).
  split; [exact H|].
  apply (momentum_conservation_loss_only_shape_errors
           vel_two_samples vel_two_samples 3 3 None ShapeMismatch H).
Defined.

(** ** The loss is never negative *)

Lemma Forall_vadd (P : Q -> Prop) (u v : list Q) :
  (forall x y, P x -> P y -> P (x + y)%Q) ->
  Forall P u -> Forall P v -> Forall P (vadd u v).
Proof.
  intros Hadd Hu. revert v. induction Hu as [|x u Hx _ IH]; intros v Hv; cbn.
  - constructor.
  - destruct Hv as [|y v Hy Hv]; cbn; constructor; [now apply Hadd | now apply IH].
Qed.

Lemma Forall_replicate_0 (P : Q -> Prop) (n : nat) :
  P 0%Q -> Forall P (replicate n 0%Q).
Proof. intros H. induction n; cbn; constructor; assumption. Qed.

Lemma Forall_sum_axis (P : Q -> Prop) (k : nat) (s : list nat) (d : list Q) :
  P 0%Q -> (forall x y, P x -> P y -> P (x + y)%Q) ->
  Forall P d -> Forall P (sum_axis k s d).
Proof.
  intros H0 Hadd. revert k d. induction s as [|a s IH]; intros k d H; [exact H|].
  destruct k as [|k]; cbn [sum_axis].
  - assert (Hc := Forall_chunks _ a (numel_of s) d H).
    induction Hc as [|c cs Hc _ IHc]; cbn.
    + now apply Forall_replicate_0.
    + now apply Forall_vadd.
  - apply (Forall_concat_map_in (Forall P)); [apply IH|].
    now apply Forall_chunks.
Qed.

Lemma Qsquare_nonneg (x : Q) : (0 <= x ^ 2)%Q.
Proof. cbn. nra. Qed.

Lemma Forall_pow2_nonneg (d : list Q) :
  Forall (fun x => (0 <= x)%Q) (map (fun x => (x ^ 2)%Q) d).
Proof.
  induction d as [|x d IH]; cbn [map]; constructor;
    [apply Qsquare_nonneg | exact IH].
Qed.

Lemma Forall_clamp_pos (d : list Q) :
  Forall (fun x => (0 < x)%Q) (map (fun x => Qmax x eps) d).
Proof.
  induction d as [|x d IH]; cbn [map]; constructor; [|exact IH].
  eapply Qlt_le_trans; [apply eps_pos | apply Q.le_max_r].
Qed.

Lemma Forall_div_nonneg (u v : list Q) :
  Forall (fun x => (0 <= x)%Q) u -> Forall (fun x => (0 < x)%Q) v ->
  Forall (fun x => (0 <= x)%Q) (zip_with Qdiv u v).
Proof.
  intros Hu. revert v. induction Hu as [|x u Hx _ IH]; intros v Hv; cbn;
    [constructor|].
  destruct Hv as [|y v Hy Hv]; constructor; [|now apply IH].
  now apply Qdiv_nonneg.
Qed.

Lemma qsum_nonneg (d : list Q) :
  Forall (fun x => (0 <= x)%Q) d -> (0 <= qsum d)%Q.
Proof.
  induction 1 as [|x d Hx _ IH]; [cbn; lra|].
  change (qsum (x :: d)) with (x + qsum d)%Q. lra.
Qed.

Lemma inject_nat_pos (n : nat) : n <> 0 -> (0 < inject_Z (Z.of_nat n))%Q.
Proof.
  intros H. change 0%Q with (inject_Z 0). rewrite <- Zlt_Qlt. lia.
Qed.

Lemma mean_nonneg (t : Tensor) :
  Forall (fun x => (0 <= x)%Q) (data t) ->
  mean t = NaN \/ exists q, mean t = Fin q /\ (0 <= q)%Q.
Proof.
  intros H. unfold mean. destruct (numel t =? 0) eqn:E; [now left|].
  right. apply Nat.eqb_neq in E. eexists. split; [reflexivity|].
  apply Qdiv_nonneg; [now apply inject_nat_pos | now apply qsum_nonneg].
Qed.

(** The per-sample loss behind a returned value has no negative entry. *)
Lemma loss_is_mean_of_nonneg
  (vel_init vel_pred : Tensor) (n_nodes batch_size : Z)
  (masses : option Tensor) (r : fval) :
  momentum_conservation_loss vel_init vel_pred n_nodes batch_size masses
  = Ok r ->
  exists loss, Forall (fun x => (0 <= x)%Q) (data loss) /\ r = mean loss.
Proof.
  unfold momentum_conservation_loss. intros H.
  apply rbind_Ok in H as (P_init & _ & H).
  apply rbind_Ok in H as (P_pred & _ & H).
  apply rbind_Ok in H as (diff & _ & H).
  apply rbind_Ok in H as (l & Hl & H).
  apply rbind_Ok in H as (nrm & Hn & H).
  apply rbind_Ok in H as (l' & Hl' & H).
  injection H as <-. exists l'. split; [|reflexivity].
  unfold sum_dim in Hl. apply rbind_Ok in Hl as (k & _ & [= <-]).
  unfold sum_dim in Hn. apply rbind_Ok in Hn as (k' & _ & [= <-]).
  unfold tdiv, binop in Hl'.
  destruct (broadcast_shapes _ _) as [s'|]; [|discriminate].
  injection Hl' as <-. cbn [data pow2 tmap shape clamp_min].
  apply Forall_div_nonneg.
  - apply expand_Forall, Forall_sum_axis; [lra | intros; lra|].
    apply Forall_pow2_nonneg.
  - apply expand_Forall, Forall_clamp_pos.
Qed.

(** X3.  Whenever [momentum_conservation_loss] returns, the loss is nan or a
    non-negative number, for any shapes and any masses (negative ones
    included). *)
Theorem momentum_conservation_loss_nonneg
  (vel_init vel_pred : Tensor) (n_nodes batch_size : Z)
  (masses : option Tensor) (r : fval) :
  momentum_conservation_loss vel_init vel_pred n_nodes batch_size masses
  = Ok r ->
  r = NaN \/ exists q, r = Fin q /\ (0 <= q)%Q.
Proof.
  intros H. apply loss_is_mean_of_nonneg in H as (loss & Hpos & ->).
  now apply mean_nonneg.
Qed.

Lemma momentum_conservation_loss_nonneg_witness :
  Fin (4 # 8) = NaN \/ exists q, Fin (4 # 8) = Fin q /\ (0 <= q)%Q.
Proof.
  apply (momentum_conservation_loss_nonneg vel_two_samples
           vel_two_samples_pushed 3 2 None).
  vm_compute. reflexivity.
Defined.

(** ** The momenta and the loss on well-shaped input *)

(** X4.  On a flat array of shape (b*n, 3), without masses or with masses of
    shape (b, n) or (n), the batched momentum returns a dense array of shape
    (b, 3): one 3-vector per sample. *)
Theorem batched_momentum_shape
  (b n : nat) (vel : Tensor) (masses : option Tensor) :
  shape vel = [b * n; 3] -> wf vel -> masses_per_particle b n masses ->
  exists P,
    compute_linear_momentum_batched vel (Z.of_nat n) (Z.of_nat b) masses = Ok P /\
    shape P = [b; 3] /\ wf P.
Proof.
  intros Hs Hwf Hm. eexists. split; [now apply momentum_batched_samples|].
  split; [reflexivity|].
  destruct (sample_momenta_regular b n vel masses Hs Hwf Hm) as [Hb H3].
  unfold wf, numel. cbn [shape data].
  rewrite (length_concat_uniform 3) by exact H3. rewrite Hb. cbn. lia.
Qed.

Lemma batched_momentum_shape_witness :
  exists P,
    compute_linear_momentum_batched vel_two_samples (Z.of_nat 3) (Z.of_nat 2)
      (Some masses_two_samples) = Ok P /\
    shape P = [2; 3] /\ wf P.
Proof.
  apply (batched_momentum_shape 2 3 vel_two_samples (Some masses_two_samples)).
  - reflexivity.
  - reflexivity.
  - split; [left|]; reflexivity.
Defined.

Lemma length_sample_losses
  (b n : nat) (vel_init vel_pred : Tensor) (masses : option Tensor) :
  shape vel_init = [b * n; 3] -> wf vel_init ->
  shape vel_pred = [b * n; 3] -> wf vel_pred ->
  masses_per_particle b n masses ->
  length (zip_with sample_loss
            (zip_with sample_momentum (samples b n vel_init)
                      (sample_masses b n masses))
            (zip_with sample_momentum (samples b n vel_pred)
                      (sample_masses b n masses))) = b.
Proof.
  intros Hsi Hwi Hsp Hwp Hm.
  destruct (sample_momenta_regular b n vel_init masses Hsi Hwi Hm) as [HbI _].
  destruct (sample_momenta_regular b n vel_pred masses Hsp Hwp Hm) as [HbP _].
  cbv zeta in HbI, HbP.
  rewrite length_zip_with_l_eq by congruence. exact HbI.
Qed.

(** X5.  The empty batch.  On flat arrays without rows, with
    [batch_size = 0], any [n_nodes >= 0] and masses absent or of shape (0, n)
    or (n), the loss is nan (the mean of an empty per-sample loss), and the
    nan goes through the clamp and the weighting: with a positive weight the
    combined loss returns a nan total and nan under [momentum],
    [momentum_clamped] and [total_physics]. *)
Theorem empty_batch_gives_nan
  (n : nat) (vel_init vel_pred : Tensor) (masses : option Tensor) :
  shape vel_init = [0; 3] -> wf vel_init ->
  shape vel_pred = [0; 3] -> wf vel_pred ->
  masses_per_particle 0 n masses ->
  momentum_conservation_loss vel_init vel_pred (Z.of_nat n) 0 masses
  = Ok NaN /\
  forall self : PhysicsInformedLoss,
    (0 < lambda_momentum self)%Q ->
    exists losses : gmap string fval,
      compute_physics_losses self vel_init vel_pred (Z.of_nat n) 0 masses
      = Ok (TensorScalar NaN, losses) /\
      losses !! "momentum" = Some NaN /\
      losses !! "momentum_clamped" = Some NaN /\
      losses !! "total_physics" = Some NaN.
Proof.
  intros Hsi Hwi Hsp Hwp Hm.
  assert (Hrun : momentum_conservation_loss vel_init vel_pred (Z.of_nat n) 0
                   masses = Ok NaN).
  { change 0%Z with (Z.of_nat 0).
    rewrite (momentum_conservation_loss_samples 0 n) by assumption.
    unfold spec_momentum_loss, average.
    rewrite length_sample_losses by assumption. reflexivity. }
  split; [exact Hrun|].
  intros self Hl.
  rewrite compute_physics_losses_enabled by exact Hl.
  rewrite Hrun. cbn [rbind].
  eexists. split; [reflexivity|]. repeat split; reflexivity.
Qed.

Lemma empty_batch_gives_nan_witness :
  momentum_conservation_loss vel_no_rows vel_no_rows (Z.of_nat 3) 0 None
  = Ok NaN /\
  forall self : PhysicsInformedLoss,
    (0 < lambda_momentum self)%Q ->
    exists losses : gmap string fval,
      compute_physics_losses self vel_no_rows vel_no_rows (Z.of_nat 3) 0 None
      = Ok (TensorScalar NaN, losses) /\
      losses !! "momentum" = Some NaN /\
      losses !! "momentum_clamped" = Some NaN /\
      losses !! "total_physics" = Some NaN.
Proof.
  apply (empty_batch_gives_nan 3 vel_no_rows vel_no_rows None);
    try reflexivity.
Defined.

Lemma Qsquare_eq0 (x : Q) : (x ^ 2 == 0)%Q <-> (x == 0)%Q.
Proof.
  cbn. split.
  - intros H. destruct (Qmult_integral _ _ H); assumption.
  - intros ->. ring.
Qed.

Lemma qsum_eq0_nonneg (d : list Q) :
  Forall (fun x => (0 <= x)%Q) d -> (qsum d == 0)%Q -> all_zero d.
Proof.
  induction 1 as [|x d Hx Hd IH]; intros H; [constructor|].
  change (qsum (x :: d)) with (x + qsum d)%Q in H.
  assert (Hs := qsum_nonneg d Hd).
  constructor; [lra|]. apply IH. lra.
Qed.

Lemma sumsq_eq0 (v : list Q) : (sumsq v == 0)%Q <-> all_zero v.
Proof.
  unfold sumsq. split.
  - intros H. apply qsum_eq0_nonneg in H; [|apply Forall_pow2_nonneg].
    induction v as [|x v IH]; [constructor|].
    cbn [map] in H. apply Forall_cons in H as [Hx H].
    constructor; [now apply Qsquare_eq0 | now apply IH].
  - intros H. now apply all_zero_qsum, all_zero_pow2.
Qed.

Lemma sumsq_nonneg (v : list Q) : (0 <= sumsq v)%Q.
Proof. apply qsum_nonneg, Forall_pow2_nonneg. Qed.

Lemma floor_pos (x : Q) : (0 < Qmax x eps)%Q.
Proof. eapply Qlt_le_trans; [apply eps_pos | apply Q.le_max_r]. Qed.

Lemma sample_loss_nonneg (P_init P_pred : list Q) :
  (0 <= sample_loss P_init P_pred)%Q.
Proof.
  unfold sample_loss. apply Qdiv_nonneg; [apply floor_pos | apply sumsq_nonneg].
Qed.

Lemma differences_zero (p q : list Q) :
  length p = length q ->
  all_zero (zip_with Qminus p q) <-> Forall2 Qeq p q.
Proof.
  revert q. induction p as [|x p IH]; intros [|y q] Hl; try discriminate; cbn.
  - split; constructor.
  - injection Hl as Hl. split.
    + intros H. apply Forall_cons in H as [Hx H].
      constructor; [lra | now apply IH].
    + intros H. apply Forall2_cons in H as [Hx H].
      constructor; [lra | now apply IH].
Qed.

Lemma sample_loss_eq0 (P_init P_pred : list Q) :
  length P_pred = length P_init ->
  (sample_loss P_init P_pred == 0)%Q <-> Forall2 Qeq P_pred P_init.
Proof.
  intros Hl. rewrite <- differences_zero by exact Hl.
  rewrite <- sumsq_eq0. unfold sample_loss.
  assert (Hd := floor_pos (sumsq P_init)).
  split.
  - intros H.
    assert (E : (sumsq (zip_with Qminus P_pred P_init)
                 == sumsq (zip_with Qminus P_pred P_init)
                    / Qmax (sumsq P_init) eps * Qmax (sumsq P_init) eps)%Q).
    { field. lra. }
    rewrite E, H. ring.
  - intros ->. unfold Qdiv. ring.
Qed.

Lemma sample_losses_eq0 (Pis Pps : list (list Q)) :
  length Pis = length Pps ->
  Forall (fun P => length P = 3) Pis -> Forall (fun P => length P = 3) Pps ->
  all_zero (zip_with sample_loss Pis Pps) <->
  Forall2 (Forall2 Qeq) Pps Pis.
Proof.
  intros Hl HI. revert Pps Hl. induction HI as [|Pi Pis Hi _ IH];
    intros [|Pp Pps] Hl HP; try discriminate; cbn.
  - split; constructor.
  - injection Hl as Hl. apply Forall_cons in HP as [Hp HP]. split.
    + intros H. apply Forall_cons in H as [Hx H]. constructor.
      * apply sample_loss_eq0; [congruence | exact Hx].
      * now apply IH.
    + intros H. apply Forall2_cons in H as [Hx H]. constructor.
      * apply sample_loss_eq0; [congruence | exact Hx].
      * now apply IH.
Qed.

Lemma Forall_sample_loss_nonneg (Pis Pps : list (list Q)) :
  Forall (fun x => (0 <= x)%Q) (zip_with sample_loss Pis Pps).
Proof.
  revert Pps. induction Pis as [|Pi Pis IH]; intros [|Pp Pps]; cbn;
    constructor; [apply sample_loss_nonneg | apply IH].
Qed.

(** X6.  In exact arithmetic (finite entries; no rounding, underflow or
    overflow): on well-shaped input with at least one sample, the loss is a
    number, and it is zero exactly when every sample keeps its momentum, the
    predicted momentum of each sample being equal to the initial one
    component by component. *)
Theorem zero_loss_iff_momentum_conserved
  (b n : nat) (vel_init vel_pred : Tensor) (masses : option Tensor) :
  1 <= b ->
  shape vel_init = [b * n; 3] -> wf vel_init ->
  shape vel_pred = [b * n; 3] -> wf vel_pred ->
  masses_per_particle b n masses ->
  exists q,
    momentum_conservation_loss vel_init vel_pred (Z.of_nat n) (Z.of_nat b)
      masses = Ok (Fin q) /\
    ((q == 0)%Q <->
     Forall2 (Forall2 Qeq)
       (zip_with sample_momentum (samples b n vel_pred)
                 (sample_masses b n masses))
       (zip_with sample_momentum (samples b n vel_init)
                 (sample_masses b n masses))).
Proof.
  intros Hb Hsi Hwi Hsp Hwp Hm.
  rewrite momentum_conservation_loss_samples by assumption.
  unfold spec_momentum_loss, average.
  assert (HL := length_sample_losses b n vel_init vel_pred masses
                  Hsi Hwi Hsp Hwp Hm).
  destruct (sample_momenta_regular b n vel_init masses Hsi Hwi Hm) as [HbI HI].
  destruct (sample_momenta_regular b n vel_pred masses Hsp Hwp Hm) as [HbP HP].
  cbv zeta in HbI, HI, HbP, HP.
  rewrite HL. destruct b as [|b']; [lia|]. cbn [Nat.eqb].
  eexists. split; [reflexivity|].
  rewrite <- sample_losses_eq0 by (assumption || congruence).
  set (L := zip_with sample_loss _ _).
  assert (Hpos : (0 < inject_Z (Z.of_nat (S b')))%Q)
    by (apply inject_nat_pos; lia).
  split.
  - intros H. apply qsum_eq0_nonneg; [apply Forall_sample_loss_nonneg|].
    assert (E : (qsum L == qsum L / inject_Z (Z.of_nat (S b'))
                           * inject_Z (Z.of_nat (S b')))%Q).
    { field. lra. }
    rewrite E, H. ring.
  - intros H. rewrite (all_zero_qsum _ H). unfold Qdiv. ring.
Qed.

Lemma zero_loss_iff_momentum_conserved_witness :
  exists q,
    momentum_conservation_loss vel_two_samples vel_two_samples_pushed
      (Z.of_nat 3) (Z.of_nat 2) None = Ok (Fin q) /\
    ((q == 0)%Q <->
     Forall2 (Forall2 Qeq)
       (zip_with sample_momentum (samples 2 3 vel_two_samples_pushed)
                 (sample_masses 2 3 None))
       (zip_with sample_momentum (samples 2 3 vel_two_samples)
                 (sample_masses 2 3 None))).
Proof.
  apply (zero_loss_iff_momentum_conserved 2 3 vel_two_samples
           vel_two_samples_pushed None); try reflexivity. lia.
Defined.

(** ** One sample: the 2-axis form and the 3-axis form *)

Lemma flat_momentum_sample (n : nat) (vel : Tensor) (masses : option Tensor) :
  shape vel = [n; 3] -> wf vel -> masses_flat n masses ->
  compute_linear_momentum vel masses
  = Ok (mkTensor [3]
          (sample_momentum (chunks n 3 (data vel)) (option_map data masses))).
Proof.
  intros Hs Hwf Hm. destruct vel as [sh d]. cbn [shape data] in *. subst sh.
  unfold wf, numel in Hwf. cbn [shape data] in Hwf.
  change (numel_of [n; 3]) with (n * (3 * 1)) in Hwf.
  assert (Hlen : length d = n * 3) by lia.
  unfold compute_linear_momentum, dim. cbn [shape length Nat.eqb].
  destruct masses as [m|]; cbn [masses_flat option_map] in *.
  - destruct Hm as [Hsm Hwm]. unfold wf, numel in Hwm. rewrite Hsm in Hwm.
    change (numel_of [n]) with (n * 1) in Hwm.
    assert (Hlm : length (data m) = n) by lia.
    unfold tmul, binop, unsqueeze_last, dim. cbn [shape data]. rewrite Hsm.
    change (broadcast_shapes [n; 3] ([n] ++ [1]))
      with (broadcast_shapes ([n] ++ [3]) ([n] ++ [1])).
    rewrite broadcast_shapes_trailing_1. cbn [app length Nat.max rbind].
    change (pad_shape 2 [n; 3]) with [n; 3].
    change (pad_shape 2 [n; 1]) with [n; 1].
    rewrite expand_id by (cbn; lia).
    unfold sum_dim, dim. cbn [shape data]. rewrite norm_dim_0. cbn [rbind].
    change (delete 0 [n; 3]) with [3].
    now rewrite sum_axis_weighted_sample.
  - unfold sum_dim, dim. cbn [shape data]. rewrite norm_dim_0. reflexivity.
Qed.

(** X7.  For one sample of [n] particles the two forms agree: the 2-axis call
    on the (n, 3) array and the batched call with [batch_size = 1] return the
    same 3-vector, the sum of the velocities weighted by the masses, as shape
    (3) and as shape (1, 3). *)
Theorem single_sample_forms_agree
  (n : nat) (vel : Tensor) (masses : option Tensor) :
  shape vel = [n; 3] -> wf vel -> masses_flat n masses ->
  let P := sample_momentum (chunks n 3 (data vel)) (option_map data masses) in
  compute_linear_momentum vel masses = Ok (mkTensor [3] P) /\
  compute_linear_momentum_batched vel (Z.of_nat n) 1 masses
  = Ok (mkTensor [1; 3] P).
Proof.
  intros Hs Hwf Hm P. subst P. split; [now apply flat_momentum_sample|].
  assert (Hs1 : shape vel = [1 * n; 3]) by (rewrite Hs; do 2 f_equal; lia).
  assert (Hm1 : masses_per_particle 1 n masses).
  { destruct masses as [m|]; [|exact I]. destruct Hm. split; auto. }
  change 1%Z with (Z.of_nat 1).
  rewrite (momentum_batched_samples 1 n vel masses Hs1 Hwf Hm1).
  do 2 f_equal. unfold samples, sample_masses. cbn [chunks map].
  unfold wf, numel in Hwf. rewrite Hs in Hwf.
  change (numel_of [n; 3]) with (n * (3 * 1)) in Hwf.
  rewrite take_ge by lia.
  destruct masses as [m|]; cbn [option_map].
  - destruct Hm as [Hsm _]. unfold mass_blocks, dim. rewrite Hsm.
    cbn. now rewrite app_nil_r.
  - cbn. now rewrite app_nil_r.
Qed.

Lemma single_sample_forms_agree_witness :
  let P := sample_momentum (chunks 4 3 (data vel_four_rows))
                           (option_map data (Some masses_flat_four)) in
  compute_linear_momentum vel_four_rows (Some masses_flat_four)
  = Ok (mkTensor [3] P) /\
  compute_linear_momentum_batched vel_four_rows (Z.of_nat 4) 1
    (Some masses_flat_four)
  = Ok (mkTensor [1; 3] P).
Proof.
  apply (single_sample_forms_agree 4 vel_four_rows (Some masses_flat_four)).
  - reflexivity.
  - reflexivity.
  - split; reflexivity.
Defined.

(** ** A batch size left to the reshape *)

Lemma view_inferred_batch (vel : Tensor) (b n : nat) :
  shape vel = [b * n; 3] -> 0 < n ->
  view vel [(-1)%Z; Z.of_nat n; 3%Z] = Ok (regroup b n vel).
Proof.
  intros Hs Hn. unfold view, infer_size.
  assert (Hex : existsb (fun z => (z <? -1)%Z) [(-1)%Z; Z.of_nat n; 3%Z] = false).
  { cbn. rewrite !orb_false_r. apply Z.ltb_ge. lia. }
  rewrite Hex. cbn [List.filter].
  rewrite (is_infer_nonneg (Z.of_nat n)) by lia.
  cbn [is_infer Z.eqb negb length fold_right Pos.eqb].
  replace (Z.to_nat (Z.of_nat n * (3 * 1))) with (n * 3) by lia.
  rewrite (numel_rows _ _ Hs).
  replace (b * n * 3) with (b * (n * 3)) by lia.
  assert (H0 : (0 <? n * 3) = true) by (apply Nat.ltb_lt; lia).
  rewrite H0, Nat.Div0.mod_mul, Nat.eqb_refl. cbn [andb rbind map].
  rewrite (is_infer_nonneg (Z.of_nat n)) by lia.
  cbn [is_infer Z.eqb Pos.eqb].
  rewrite Nat.div_mul by lia. rewrite Nat2Z.id. reflexivity.
Qed.

(** X8.  With [batch_size = -1] the reshape infers the batch: on a flat array
    of b*n rows with [n_nodes = n > 0] the batched momentum is the one
    obtained with [batch_size = b].  With [n_nodes = 0] the inference is
    ambiguous and the call fails, even on an array without rows. *)
Theorem inferred_batch_size
  (b n : nat) (vel : Tensor) (masses : option Tensor) :
  shape vel = [b * n; 3] ->
  (0 < n ->
   compute_linear_momentum_batched vel (Z.of_nat n) (-1) masses
   = compute_linear_momentum_batched vel (Z.of_nat n) (Z.of_nat b) masses) /\
  (n = 0 ->
   compute_linear_momentum_batched vel (Z.of_nat n) (-1) masses
   = Err ShapeMismatch).
Proof.
  intros Hs. split.
  - intros Hn. unfold compute_linear_momentum_batched.
    now rewrite (view_inferred_batch vel b n Hs Hn), (view_flat_rows vel b n Hs).
  - intros ->. reflexivity.
Qed.

Lemma inferred_batch_size_witness :
  compute_linear_momentum_batched vel_two_samples (Z.of_nat 3) (-1) None
  = compute_linear_momentum_batched vel_two_samples (Z.of_nat 3) (Z.of_nat 2) None /\
  compute_linear_momentum_batched vel_no_rows (Z.of_nat 0) (-1) None
  = Err ShapeMismatch.
Proof.
  split.
  - apply (inferred_batch_size 2 3 vel_two_samples None); [reflexivity | lia].
  - apply (inferred_batch_size 0 0 vel_no_rows None); reflexivity.
Defined.

(** ** The combined loss: errors, report and bounds *)

(** X9.  [compute_physics_losses] fails only when the momentum term is
    enabled, and then with the [ShapeMismatch] that
    [momentum_conservation_loss] raised: nothing is caught and nothing else
    is raised. *)
Theorem compute_physics_losses_failure
  (self : PhysicsInformedLoss) (vel_init vel_pred : Tensor)
  (n_nodes batch_size : Z) (masses : option Tensor) (e : ErrorKind) :
  compute_physics_losses self vel_init vel_pred n_nodes batch_size masses
  = Err e <->
  (0 < lambda_momentum self)%Q /\ e = ShapeMismatch /\
  momentum_conservation_loss vel_init vel_pred n_nodes batch_size masses
  = Err e.
Proof.
  destruct (Qlt_le_dec 0 (lambda_momentum self)) as [Hl | Hl].
  - rewrite compute_physics_losses_enabled by exact Hl.
    destruct (momentum_conservation_loss _ _ _ _ _) as [ml|e'] eqn:E;
      cbn [rbind].
    + split; [discriminate | intros (_ & _ & ?); discriminate].
    + apply momentum_conservation_loss_Err in E as ->. split.
      * intros [= <-]. auto.
      * intros (_ & -> & _). reflexivity.
  - rewrite compute_physics_losses_disabled by exact Hl.
    split; [discriminate | intros [H _]; lra].
Qed.

Lemma compute_physics_losses_failure_witness :
  (0 < lambda_momentum default_loss)%Q /\ ShapeMismatch = ShapeMismatch /\
  momentum_conservation_loss vel_two_samples vel_two_samples 3 3 None
  = Err ShapeMismatch.
Proof.
  apply (proj1 (compute_physics_losses_failure default_loss vel_two_samples
                  vel_two_samples 3 3 None ShapeMismatch)).
  vm_compute. reflexivity.
Defined.

(** X10.  The report of a run that returns agrees with the returned total:
    [total_physics] is the number behind the total and [warmup_factor] is the
    factor in force.  With a positive weight the report has exactly the four
    keys, [momentum] is the raw loss and [momentum_clamped] is that loss
    clamped at the ceiling. *)
Theorem report_matches_total
  (self : PhysicsInformedLoss) (vel_init vel_pred : Tensor)
  (n_nodes batch_size : Z) (masses : option Tensor)
  (total : total_t) (losses : gmap string fval) :
  compute_physics_losses self vel_init vel_pred n_nodes batch_size masses
  = Ok (total, losses) ->
  losses !! "total_physics" = Some (as_number total) /\
  losses !! "warmup_factor" = Some (Fin (get_warmup_factor self)) /\
  ((0 < lambda_momentum self)%Q ->
   dom losses
   = ({["momentum"; "momentum_clamped"; "total_physics"; "warmup_factor"]}
      : gset string) /\
   exists raw,
     momentum_conservation_loss vel_init vel_pred n_nodes batch_size masses
     = Ok raw /\
     losses !! "momentum" = Some raw /\
     losses !! "momentum_clamped" = Some (fclamp_max raw (ceiling self))).
Proof.
  intros Hrun.
  destruct (Qlt_le_dec 0 (lambda_momentum self)) as [Hl | Hl].
  - rewrite compute_physics_losses_enabled in Hrun by exact Hl.
    destruct (momentum_conservation_loss _ _ _ _ _) as [ml|e'];
      [|discriminate].
    cbn [rbind] in Hrun. injection Hrun as <- <-.
    split; [reflexivity|]. split; [reflexivity|]. intros _. split.
    + rewrite !dom_insert_L, dom_empty_L. set_solver.
    + exists ml. repeat split; reflexivity.
  - rewrite compute_physics_losses_disabled in Hrun by exact Hl.
    injection Hrun as <- <-.
    split; [reflexivity|]. split; [reflexivity|]. intros H. lra.
Qed.

Lemma report_matches_total_witness :
  report_of (compute_physics_losses default_loss vel_two_samples
               vel_two_samples_pushed 3 2 None) !! "total_physics"
  = Some (as_number
            (total_of (compute_physics_losses default_loss vel_two_samples
                         vel_two_samples_pushed 3 2 None))).
Proof.
  apply (report_matches_total default_loss vel_two_samples
           vel_two_samples_pushed 3 2 None).
  vm_compute. reflexivity.
Defined.

Lemma warmup_factor_unit_interval (self : PhysicsInformedLoss) :
  (warmup_epochs self <= 0 \/ 0 <= current_epoch self)%Q ->
  (0 <= get_warmup_factor self <= 1)%Q.
Proof.
  intros H.
  destruct (Qlt_le_dec 0 (warmup_epochs self)) as [Hw | Hw].
  - rewrite warmup_enabled by exact Hw.
    destruct H as [H | H]; [lra|]. split.
    + apply Q.min_glb; [lra | now apply Qdiv_nonneg].
    + apply Q.le_min_l.
  - rewrite warmup_disabled by exact Hw. lra.
Qed.

Lemma raw_loss_nonneg
  (vel_init vel_pred : Tensor) (n_nodes batch_size : Z)
  (masses : option Tensor) (raw : Q) :
  momentum_conservation_loss vel_init vel_pred n_nodes batch_size masses
  = Ok (Fin raw) ->
  (0 <= raw)%Q.
Proof.
  intros H. apply loss_is_mean_of_nonneg in H as (loss & Hpos & Hr).
  destruct (mean_nonneg loss Hpos) as [Hn | (q & Hq & Hq0)]; [congruence|].
  rewrite Hq in Hr. now injection Hr as ->.
Qed.

Lemma ceiling_nonneg (self : PhysicsInformedLoss) :
  (0 <= max_physics_loss self)%Q -> (0 <= ceiling self)%Q.
Proof.
  intros H. unfold ceiling. apply Qdiv_nonneg; [apply floor_pos | exact H].
Qed.

(** X11.  With a positive weight, a non-negative [max_physics_loss] and a
    warmup that is off or at a non-negative epoch, the total of a run whose
    raw loss is a number lies between 0 and [max_physics_loss]. *)
Theorem total_between_zero_and_max
  (self : PhysicsInformedLoss) (vel_init vel_pred : Tensor)
  (n_nodes batch_size : Z) (masses : option Tensor)
  (total : total_t) (losses : gmap string fval) (raw : Q) :
  (0 < lambda_momentum self)%Q ->
  (0 <= max_physics_loss self)%Q ->
  (warmup_epochs self <= 0 \/ 0 <= current_epoch self)%Q ->
  compute_physics_losses self vel_init vel_pred n_nodes batch_size masses
  = Ok (total, losses) ->
  losses !! "momentum" = Some (Fin raw) ->
  exists t,
    total = TensorScalar (Fin t) /\
    (0 <= t)%Q /\ (t <= max_physics_loss self)%Q.
Proof.
  intros Hl Hmax Hw Hrun Hraw.
  destruct (compute_physics_losses_inv _ _ _ _ _ _ _ _ Hl Hrun)
    as (ml & Hml & Ht & Hm & _).
  rewrite Hm in Hraw. injection Hraw as ->.
  apply raw_loss_nonneg in Hml.
  destruct (warmup_factor_unit_interval self Hw) as [Hw0 Hw1].
  assert (Hc := ceiling_nonneg self Hmax).
  eexists. split; [exact Ht|].
  set (c := Qmin raw (ceiling self)).
  set (w := get_warmup_factor self) in *.
  assert (Hc0 : (0 <= c)%Q) by (apply Q.min_glb; assumption).
  assert (Hlc : (lambda_momentum self * c <= max_physics_loss self)%Q).
  { apply Qle_trans with (lambda_momentum self * ceiling self)%Q.
    - apply Qmult_le_l; [exact Hl | apply Q.le_min_r].
    - apply weighted_ceiling_le; auto. }
  assert (Hlc0 : (0 <= lambda_momentum self * c)%Q) by nra.
  split; nra.
Qed.

Lemma total_between_zero_and_max_witness :
  exists t,
    total_of (compute_physics_losses default_loss vel_two_samples
                vel_two_samples_pushed 3 2 None) = TensorScalar (Fin t) /\
    (0 <= t)%Q /\ (t <= max_physics_loss default_loss)%Q.
Proof.
  apply (total_between_zero_and_max default_loss vel_two_samples
           vel_two_samples_pushed 3 2 None _
           (report_of (compute_physics_losses default_loss vel_two_samples
                         vel_two_samples_pushed 3 2 None))
           (4 # 8)).
  - reflexivity.
  - vm_compute. discriminate.
  - left. vm_compute. discriminate.
  - vm_compute. reflexivity.
  - vm_compute. reflexivity.
Defined.

(** X12.  The ends of the warmup.  With [warmup_epochs > 0] and a raw loss
    that is a number, the total is 0 at epoch 0 (a fresh wrapper contributes
    nothing) and is the full [lambda_momentum * momentum_loss_clamped] from
    epoch [warmup_epochs] on. *)
Theorem warmup_ends
  (self : PhysicsInformedLoss) (vel_init vel_pred : Tensor)
  (n_nodes batch_size : Z) (masses : option Tensor)
  (total : total_t) (losses : gmap string fval) (raw : Q) :
  (0 < lambda_momentum self)%Q ->
  (0 < warmup_epochs self)%Q ->
  compute_physics_losses self vel_init vel_pred n_nodes batch_size masses
  = Ok (total, losses) ->
  losses !! "momentum" = Some (Fin raw) ->
  exists t c,
    total = TensorScalar (Fin t) /\
    losses !! "momentum_clamped" = Some (Fin c) /\
    ((current_epoch self == 0)%Q -> (t == 0)%Q) /\
    ((warmup_epochs self <= current_epoch self)%Q ->
     (t == lambda_momentum self * c)%Q).
Proof.
  intros Hl Hw Hrun Hraw.
  destruct (compute_physics_losses_inv _ _ _ _ _ _ _ _ Hl Hrun)
    as (ml & _ & Ht & Hm & Hc & _).
  rewrite Hm in Hraw. injection Hraw as ->.
  eexists _, _. split; [exact Ht|]. split; [exact Hc|].
  rewrite (warmup_enabled self Hw). split.
  - intros He.
    assert (Hq : (current_epoch self / warmup_epochs self == 0)%Q).
    { rewrite He. unfold Qdiv. ring. }
    assert (Hmin : (Qmin 1 (current_epoch self / warmup_epochs self) == 0)%Q).
    { rewrite Q.min_r by lra. exact Hq. }
    rewrite Hmin. ring.
  - intros He. rewrite Qmin_1_eq by now apply Qdiv_ge_1. ring.
Qed.

Lemma warmup_ends_witness :
  exists t c,
    total_of (compute_physics_losses (init (1 # 10) 10 10) vel_two_samples
                vel_two_samples_pushed 3 2 None) = TensorScalar (Fin t) /\
    report_of (compute_physics_losses (init (1 # 10) 10 10) vel_two_samples
                 vel_two_samples_pushed 3 2 None) !! "momentum_clamped"
    = Some (Fin c) /\
    ((current_epoch (init (1 # 10) 10 10) == 0)%Q -> (t == 0)%Q) /\
    ((warmup_epochs (init (1 # 10) 10 10)
      <= current_epoch (init (1 # 10) 10 10))%Q ->
     (t == lambda_momentum (init (1 # 10) 10 10) * c)%Q).
Proof.
  apply (warmup_ends (init (1 # 10) 10 10) vel_two_samples
           vel_two_samples_pushed 3 2 None _ _ (4 # 8)).
  - reflexivity.
  - reflexivity.
  - vm_compute. reflexivity.
  - vm_compute. reflexivity.
Defined.

(** ** The loss as a function of the momenta *)

Lemma qsum_proper (u v : list Q) :
  Forall2 Qeq u v -> (qsum u == qsum v)%Q.
Proof.
  induction 1 as [|x y u v Hxy _ IH]; [reflexivity|].
  change (qsum (x :: u)) with (x + qsum u)%Q.
  change (qsum (y :: v)) with (y + qsum v)%Q.
  now rewrite Hxy, IH.
Qed.

Lemma sumsq_proper (u v : list Q) :
  Forall2 Qeq u v -> (sumsq u == sumsq v)%Q.
Proof.
  intros H. unfold sumsq. apply qsum_proper.
  induction H as [|x y u v Hxy _ IH]; cbn [map]; constructor; [|exact IH].
  cbn. now rewrite Hxy.
Qed.

Lemma differences_proper (p p' q q' : list Q) :
  Forall2 Qeq p p' -> Forall2 Qeq q q' ->
  Forall2 Qeq (zip_with Qminus p q) (zip_with Qminus p' q').
Proof.
  intros Hp. revert q q'. induction Hp as [|x x' p p' Hx _ IH];
    intros q q' Hq; [constructor|].
  destruct Hq as [|y y' q q' Hy Hq]; cbn; constructor; [|now apply IH].
  now rewrite Hx, Hy.
Qed.

Lemma Qmax_proper_l (x y e : Q) : (x == y)%Q -> (Qmax x e == Qmax y e)%Q.
Proof.
  intros H. destruct (Qlt_le_dec x e) as [Hlt | Hle].
  - rewrite !Q.max_r by lra. reflexivity.
  - rewrite !Q.max_l by lra. exact H.
Qed.

Lemma sample_loss_proper (Pi Pi' Pp Pp' : list Q) :
  Forall2 Qeq Pi Pi' -> Forall2 Qeq Pp Pp' ->
  (sample_loss Pi Pp == sample_loss Pi' Pp')%Q.
Proof.
  intros Hi Hp. unfold sample_loss.
  rewrite (sumsq_proper _ _ (differences_proper _ _ _ _ Hp Hi)).
  rewrite (Qmax_proper_l _ _ eps (sumsq_proper _ _ Hi)).
  reflexivity.
Qed.

Lemma sample_losses_proper (Pis Pis' Pps Pps' : list (list Q)) :
  Forall2 (Forall2 Qeq) Pis Pis' -> Forall2 (Forall2 Qeq) Pps Pps' ->
  Forall2 Qeq (zip_with sample_loss Pis Pps) (zip_with sample_loss Pis' Pps').
Proof.
  intros Hi. revert Pps Pps'. induction Hi as [|Pi Pi' Pis Pis' Hi _ IH];
    intros Pps Pps' Hp; [constructor|].
  destruct Hp as [|Pp Pp' Pps Pps' Hp Hps]; cbn; constructor;
    [now apply sample_loss_proper | now apply IH].
Qed.

Lemma average_proper (L L' : list Q) :
  Forall2 Qeq L L' -> feq (average L) (average L').
Proof.
  intros H. unfold average.
  rewrite <- (Forall2_length _ _ _ H).
  destruct (length L =? 0); cbn; [exact I|].
  now rewrite (qsum_proper _ _ H).
Qed.

Lemma Forall2_Qeq_refl (v : list Q) : Forall2 Qeq v v.
Proof. induction v; constructor; [reflexivity | assumption]. Qed.

Lemma Forall2_veq_refl (A : list (list Q)) : Forall2 (Forall2 Qeq) A A.
Proof. induction A; constructor; [apply Forall2_Qeq_refl | assumption]. Qed.

(** X13.  The loss sees the velocities only through the momenta of the
    samples: two predictions that give every sample the same momentum get
    the same loss against the same initial velocities. *)
Theorem loss_depends_only_on_momenta
  (b n : nat) (vel_init vel_pred vel_pred' : Tensor)
  (masses : option Tensor) :
  shape vel_init = [b * n; 3] -> wf vel_init ->
  shape vel_pred = [b * n; 3] -> wf vel_pred ->
  shape vel_pred' = [b * n; 3] -> wf vel_pred' ->
  masses_per_particle b n masses ->
  Forall2 (Forall2 Qeq) (sample_momenta b n vel_pred masses)
                        (sample_momenta b n vel_pred' masses) ->
  exists r r',
    momentum_conservation_loss vel_init vel_pred (Z.of_nat n) (Z.of_nat b)
      masses = Ok r /\
    momentum_conservation_loss vel_init vel_pred' (Z.of_nat n) (Z.of_nat b)
      masses = Ok r' /\
    feq r r'.
Proof.
  intros Hsi Hwi Hsp Hwp Hsp' Hwp' Hm Heq.
  eexists _, _.
  split; [now apply momentum_conservation_loss_samples|].
  split; [now apply momentum_conservation_loss_samples|].
  unfold spec_momentum_loss. apply average_proper, sample_losses_proper.
  - apply Forall2_veq_refl.
  - exact Heq.
Qed.

Lemma loss_depends_only_on_momenta_witness :
  exists r r',
    momentum_conservation_loss vel_two_samples vel_two_samples_pushed
      (Z.of_nat 3) (Z.of_nat 2) None = Ok r /\
    momentum_conservation_loss vel_two_samples vel_two_samples_pushed_second
      (Z.of_nat 3) (Z.of_nat 2) None = Ok r' /\
    feq r r'.
Proof.
  apply (loss_depends_only_on_momenta 2 3 vel_two_samples
           vel_two_samples_pushed vel_two_samples_pushed_second None);
    try reflexivity.
Defined.

(** ** Scaling all velocities *)

Lemma Forall2_Qeq_trans (u v w : list Q) :
  Forall2 Qeq u v -> Forall2 Qeq v w -> Forall2 Qeq u w.
Proof.
  intros H. revert w. induction H as [|x y u v Hxy _ IH]; intros w Hw;
    inversion Hw; subst; constructor; [|now apply IH].
  etransitivity; eassumption.
Qed.

Lemma samples_scale (b n : nat) (c : Q) (vel : Tensor) :
  samples b n (scale_tensor c vel)
  = map (map (map (Qmult c))) (samples b n vel).
Proof.
  unfold samples, scale_tensor, tmap. cbn [data].
  rewrite chunks_map, !map_map.
  apply map_ext. intros C. apply chunks_map.
Qed.

Lemma vadd_scale (c : Q) (g h : Q -> Q) (r X X' : list Q) :
  (forall x, g x == c * h x)%Q ->
  Forall2 Qeq X' (map (Qmult c) X) ->
  Forall2 Qeq (vadd (map g r) X') (map (Qmult c) (vadd (map h r) X)).
Proof.
  intros Hg. revert X X'. induction r as [|x r IH]; intros X X' HX;
    [constructor|].
  destruct X as [|y X]; inversion HX; subst; cbn; constructor.
  - rewrite Hg. match goal with H : (_ == c * y)%Q |- _ => rewrite H end. ring.
  - now apply IH.
Qed.

Lemma zero_vector_scale (c : Q) :
  Forall2 Qeq [0; 0; 0]%Q (map (Qmult c) [0; 0; 0]%Q).
Proof. cbn. repeat constructor; ring. Qed.

Lemma sample_momentum_scale (c : Q) (rows : list (list Q))
  (ms : option (list Q)) :
  Forall2 Qeq (sample_momentum (map (map (Qmult c)) rows) ms)
              (map (Qmult c) (sample_momentum rows ms)).
Proof.
  destruct ms as [ms|]; cbn [sample_momentum].
  - revert ms. induction rows as [|r rows IH]; intros [|m ms]; cbn [map zip_with];
      try apply zero_vector_scale.
    change (vsum (?a :: ?l)) with (vadd a (vsum l)).
    unfold weigh at 1 3. rewrite map_map.
    apply (vadd_scale c (fun x => c * x * m)%Q (fun x => x * m)%Q).
    + intros x. ring.
    + apply IH.
  - induction rows as [|r rows IH]; cbn [map]; [apply zero_vector_scale|].
    change (vsum (?a :: ?l)) with (vadd a (vsum l)).
    rewrite <- (map_id r) at 2.
    apply (vadd_scale c (Qmult c) (fun x => x)).
    + intros x. reflexivity.
    + exact IH.
Qed.

Lemma sample_momenta_scale
  (b n : nat) (c : Q) (vel : Tensor) (masses : option Tensor) :
  Forall2 (Forall2 Qeq)
    (sample_momenta b n (scale_tensor c vel) masses)
    (map (map (Qmult c)) (sample_momenta b n vel masses)).
Proof.
  unfold sample_momenta. rewrite samples_scale.
  generalize (samples b n vel) as S. generalize (sample_masses b n masses) as M.
  intros M S. revert M. induction S as [|rows S IH]; intros [|ms M];
    cbn [map zip_with]; constructor; [apply sample_momentum_scale | apply IH].
Qed.

Lemma sumsq_scale (c : Q) (v : list Q) :
  (sumsq (map (Qmult c) v) == c * c * sumsq v)%Q.
Proof.
  unfold sumsq. induction v as [|x v IH]; [cbn; ring|].
  cbn [map].
  change (qsum (?a :: ?l)) with (a + qsum l)%Q. rewrite IH. cbn. ring.
Qed.

Lemma sumsq_differences_scale (c : Q) (p q : list Q) :
  (sumsq (zip_with Qminus (map (Qmult c) p) (map (Qmult c) q))
   == c * c * sumsq (zip_with Qminus p q))%Q.
Proof.
  rewrite <- sumsq_scale. apply sumsq_proper.
  revert q. induction p as [|x p IH]; intros [|y q]; cbn; constructor;
    [ring | apply IH].
Qed.

Lemma sample_loss_scale (c : Q) (Pi Pp : list Q) :
  (eps <= sumsq Pi)%Q -> (eps <= c * c * sumsq Pi)%Q ->
  (sample_loss (map (Qmult c) Pi) (map (Qmult c) Pp) == sample_loss Pi Pp)%Q.
Proof.
  intros H1 H2. unfold sample_loss.
  rewrite sumsq_differences_scale, (Qmax_proper_l _ _ eps (sumsq_scale c Pi)).
  rewrite !Q.max_l by assumption.
  assert (He := eps_pos).
  assert (Hc : ~ (c == 0)%Q).
  { intros Hc. rewrite Hc in H2. lra. }
  field. split; [lra | exact Hc].
Qed.

Lemma sample_losses_scale (c : Q) (Pis Pps : list (list Q)) :
  Forall (fun P => (eps <= sumsq P)%Q /\ (eps <= c * c * sumsq P)%Q) Pis ->
  Forall2 Qeq
    (zip_with sample_loss (map (map (Qmult c)) Pis) (map (map (Qmult c)) Pps))
    (zip_with sample_loss Pis Pps).
Proof.
  intros H. revert Pps. induction H as [|Pi Pis [H1 H2] _ IH]; intros [|Pp Pps];
    cbn [map zip_with]; constructor; [now apply sample_loss_scale | apply IH].
Qed.

Lemma scale_tensor_wf (c : Q) (t : Tensor) : wf t -> wf (scale_tensor c t).
Proof. unfold wf, numel, scale_tensor, tmap. cbn. now rewrite length_map. Qed.

(** X14.  The normalisation makes the loss independent of the scale of the
    velocities as long as the floor is out of play: multiplying every initial
    and predicted velocity by [c] leaves the loss unchanged when the squared
    initial momentum of each sample is at least [1e-6] before and after the
    scaling. *)
Theorem loss_scale_invariant
  (b n : nat) (c : Q) (vel_init vel_pred : Tensor) (masses : option Tensor) :
  shape vel_init = [b * n; 3] -> wf vel_init ->
  shape vel_pred = [b * n; 3] -> wf vel_pred ->
  masses_per_particle b n masses ->
  Forall (fun P => (eps <= sumsq P)%Q /\ (eps <= c * c * sumsq P)%Q)
         (sample_momenta b n vel_init masses) ->
  exists r r',
    momentum_conservation_loss vel_init vel_pred (Z.of_nat n) (Z.of_nat b)
      masses = Ok r /\
    momentum_conservation_loss (scale_tensor c vel_init)
      (scale_tensor c vel_pred) (Z.of_nat n) (Z.of_nat b) masses = Ok r' /\
    feq r' r.
Proof.
  intros Hsi Hwi Hsp Hwp Hm Hfloor.
  eexists _, _.
  split; [now apply momentum_conservation_loss_samples|].
  split.
  { apply momentum_conservation_loss_samples;
      try (apply scale_tensor_wf); assumption. }
  unfold spec_momentum_loss. apply average_proper.
  eapply Forall2_Qeq_trans.
  - apply sample_losses_proper; apply sample_momenta_scale.
  - now apply sample_losses_scale.
Qed.

Lemma loss_scale_invariant_witness :
  exists r r',
    momentum_conservation_loss vel_two_samples vel_two_samples_pushed
      (Z.of_nat 3) (Z.of_nat 2) None = Ok r /\
    momentum_conservation_loss (scale_tensor 3 vel_two_samples)
      (scale_tensor 3 vel_two_samples_pushed) (Z.of_nat 3) (Z.of_nat 2) None
    = Ok r' /\
    feq r' r.
Proof.
  apply (loss_scale_invariant 2 3 3 vel_two_samples vel_two_samples_pushed
           None); try reflexivity.
  vm_compute. repeat constructor; discriminate.
Defined.
